(** * The Arcadian layout (arcadian_imgfit_stars.js): model and properties
    A shallow embedding of the layout script: the text-fit normaliser
    [uniformSize], the layout controller with its carousel, the font loader,
    the animation builder, the layout specification and the asset preloader
    bootstrap.  JavaScript values are modelled with their coercions written
    out; the browser (timers, the ad container, the web font loader) is an
    explicit world that the functions of the script transform. *)

From Stdlib Require Import ZArith QArith Lia Bool Ascii String DecimalString.
From stdpp Require Import base option list strings gmap fin_maps.

Local Open Scope Z_scope.

(** ** JavaScript values *)

Module JS.

(** Numbers of the script are whole pixel sizes, timer handles, indices and
    millisecond clock readings; they are modelled as integers, plus [NaN]. *)
Inductive num : Type :=
| NaN
| Fin (z : Z).

Inductive value : Type :=
| Undefined
| Null
| Num (n : num)
| Str (s : string).

Definition is_white (c : ascii) : bool :=
  let n := N_of_ascii c in
  ((9 <=? n) && (n <=? 13))%N || (n =? 32)%N.

Definition digit (c : ascii) : option Z :=
  let n := Z.of_N (N_of_ascii c) in
  if (48 <=? n) && (n <=? 57) then Some (n - 48) else None.

Definition hex_digit (c : ascii) : option Z :=
  let n := Z.of_N (N_of_ascii c) in
  if (48 <=? n) && (n <=? 57) then Some (n - 48)
  else if (97 <=? n) && (n <=? 102) then Some (n - 87)
  else if (65 <=? n) && (n <=? 70) then Some (n - 55)
  else None.

Fixpoint skip_white (s : string) : string :=
  match s with
  | String c r => if is_white c then skip_white r else s
  | EmptyString => s
  end.

(** The longest prefix of digits of [s] in the given radix, read as a
    number on top of [acc]; [seen] tells whether a digit was read. *)
Fixpoint read_digits (dig : ascii -> option Z) (radix : Z)
    (s : string) (seen : bool) (acc : Z) : bool * Z * string :=
  match s with
  | String c r =>
      match dig c with
      | Some d => read_digits dig radix r true (radix * acc + d)
      | None => (seen, acc, s)
      end
  | EmptyString => (seen, acc, s)
  end.

Definition strip_sign (s : string) : Z * string :=
  match s with
  | String "-" r => (-1, r)
  | String "+" r => (1, r)
  | _ => (1, s)
  end.

(** [parseInt(s)] with no radix argument: leading white space, a sign, an
    optional [0x] prefix, then the longest run of digits; whatever follows
    is ignored. *)
Definition parseInt (s : string) : num :=
  let '(sign, body) := strip_sign (skip_white s) in
  match body with
  | String "0" (String "x" r) | String "0" (String "X" r) =>
      let '(seen, n, _) := read_digits hex_digit 16 r false 0 in
      if seen then Fin (sign * n) else NaN
  | _ =>
      let '(seen, n, _) := read_digits digit 10 body false 0 in
      if seen then Fin (sign * n) else NaN
  end.

(** Conversion of a string to a number, for the strings that denote a
    whole number in decimal: optional white space around an optionally
    signed run of digits, and the empty string (which is 0).  Every other
    string is [NaN] here; literals with a fraction, an exponent or a radix
    prefix are outside this model of numbers. *)
Definition StringToNumber (s : string) : num :=
  match skip_white s with
  | EmptyString => Fin 0
  | t =>
      let '(sign, body) := strip_sign t in
      let '(seen, n, rest) := read_digits digit 10 body false 0 in
      if seen then
        match skip_white rest with
        | EmptyString => Fin (sign * n)
        | _ => NaN
        end
      else NaN
  end.

Definition ToNumber (v : value) : num :=
  match v with
  | Undefined => NaN
  | Null => Fin 0
  | Num n => n
  | Str s => StringToNumber s
  end.

Definition NumberToString (n : num) : string :=
  match n with
  | NaN => "NaN"
  | Fin z => NilZero.string_of_int (Z.to_int z)
  end.

Definition ToString (v : value) : string :=
  match v with
  | Undefined => "undefined"
  | Null => "null"
  | Num n => NumberToString n
  | Str s => s
  end.

Definition ToBoolean (v : value) : bool :=
  match v with
  | Undefined | Null => false
  | Num NaN => false
  | Num (Fin z) => negb (z =? 0)
  | Str s => negb (String.eqb s EmptyString)
  end.

Definition num_ltb (a b : num) : bool :=
  match a, b with
  | Fin x, Fin y => x <? y
  | _, _ => false
  end.

(** [a < b]: two strings are compared by code units, anything else as
    numbers, and a comparison with [NaN] is false. *)
Definition lt (a b : value) : bool :=
  match a, b with
  | Str s, Str t => String.ltb s t
  | _, _ => num_ltb (ToNumber a) (ToNumber b)
  end.

(** [a > b] is [b < a]. *)
Definition gt (a b : value) : bool := lt b a.

(** [a - b] on numbers. *)
Definition sub (a b : value) : value :=
  match ToNumber a, ToNumber b with
  | Fin x, Fin y => Num (Fin (x - y))
  | _, _ => Num NaN
  end.

(** [a || b] *)
Definition or (a b : value) : value := if ToBoolean a then a else b.

(** [a + 'px'] and the like: concatenation with a string. *)
Definition concat (a : value) (suffix : string) : string :=
  String.append (ToString a) suffix.

Definition int (z : Z) : value := Num (Fin z).

End JS.

(** ** Text-fit normalisation: [uniformSize] *)

Module TextFit.

(** A [span] found by [classToUniform + ' span']. *)
Record Span : Type := {
  (** [textFitElement.offsetParent] is an element (the span is rendered) *)
  offsetParent : bool;
  (** the [minfontsize] attribute of [textFitElement.parentElement] *)
  minfontsize : option string;
  (** [helpers.getStyleProperty(textFitElement, 'font-size')] *)
  fontSizeStyle : string;
  (** the inline [font-size] of the span *)
  span_css : option string
}.

(** An element found by [classToUniform], with the spans below it in
    document order.  The elements of one group do not contain each other. *)
Record Element : Type := {
  spans : list Span;
  el_css : option string
}.

Definition getAttribute (s : Span) : JS.value :=
  match minfontsize s with
  | Some a => JS.Str a
  | None => JS.Null
  end.

(** [getElementsList(classToUniform + ' span')] *)
Definition spans_of (group : list Element) : list Span :=
  List.concat (List.map spans group).

(** The body of the first [angular.forEach], on the running
    [smallestFontSize]. *)
Definition visit (smallestFontSize : JS.value) (textFitElement : Span) : JS.value :=
  if offsetParent textFitElement then
    let elementMinimumFontSize := getAttribute textFitElement in
    let elementFontSize := JS.Num (JS.parseInt (fontSizeStyle textFitElement)) in
    let elementFontSize :=
      if JS.lt elementFontSize elementMinimumFontSize
      then elementMinimumFontSize else elementFontSize in
    if JS.lt elementFontSize smallestFontSize
    then elementFontSize else smallestFontSize
  else smallestFontSize.

Definition smallestFontSize (group : list Element) : JS.value :=
  List.fold_left visit (spans_of group) (JS.int 1000).

Definition set_span_css (size : string) (s : Span) : Span :=
  {| offsetParent := offsetParent s; minfontsize := minfontsize s;
     fontSizeStyle := fontSizeStyle s; span_css := Some size |}.

(** The body of the second [angular.forEach]: the element and the first
    span below it (if any) get the size. *)
Definition make_uniform (size : string) (el : Element) : Element :=
  {| spans := match spans el with
              | s :: rest => set_span_css size s :: rest
              | [] => []
              end;
     el_css := Some size |}.

Definition uniformSize (group : list Element) : list Element :=
  let size := JS.concat (smallestFontSize group) "px" in
  List.map (make_uniform size) group.

(** *** What the normaliser is meant to compute *)

(** The configured floor of a span, as a number (no attribute counts as 0,
    an attribute that is no number as no floor). *)
Definition floor_of (s : Span) : JS.num := JS.ToNumber (getAttribute s).

(** The rendered size of a span clamped up to its floor; [None] when the
    rendered size is no number. *)
Definition clamped (s : Span) : option Z :=
  match JS.parseInt (fontSizeStyle s) with
  | JS.NaN => None
  | JS.Fin x =>
      match floor_of s with
      | JS.Fin f => Some (Z.max x f)
      | JS.NaN => Some x
      end
  end.

Definition visible_spans (group : list Element) : list Span :=
  List.filter offsetParent (spans_of group).

Definition clamped_sizes (group : list Element) : list Z :=
  omap clamped (visible_spans group).

(** The minimum of a list; there is none for the empty list. *)
Definition minimum (l : list Z) : option Z :=
  match l with
  | [] => None
  | x :: r => Some (List.fold_left Z.min r x)
  end.

Definition px (m : Z) : string := JS.concat (JS.int m) "px".

(** The claim as the specification words it: every element of the group
    ends with the minimum of the clamped sizes of the visible spans. *)
Definition normalised_to_minimum (group : list Element) : Prop :=
  exists m, minimum (clamped_sizes group) = Some m /\
    Forall (fun el => el_css el = Some (px m)) (uniformSize group).

(** The textual order of two floors agrees with their numeric order. *)
Definition orders_agree (a b : Span) : Prop :=
  forall s t, minfontsize a = Some s -> minfontsize b = Some t ->
    String.ltb s t = JS.num_ltb (JS.StringToNumber s) (JS.StringToNumber t).

(** A floor attribute is a plain run of decimal digits. *)
Definition plain_numeral (s : string) : bool :=
  negb (String.eqb s EmptyString) &&
  forallb (fun c => match JS.digit c with Some _ => true | None => false end)
          (list_ascii_of_string s).

Record well_formed (group : list Element) : Prop := {
  (** rendered sizes are never negative *)
  wf_rendered : forall s x, In s (visible_spans group) ->
    JS.parseInt (fontSizeStyle s) = JS.Fin x -> 0 <= x;
  (** floors are written as plain decimal numerals *)
  wf_floor : forall s a, In s (visible_spans group) ->
    minfontsize s = Some a -> plain_numeral a = true;
  (** on which the textual and the numeric order agree *)
  wf_order : forall a b, In a (visible_spans group) ->
    In b (visible_spans group) -> orders_agree a b
}.

End TextFit.

Import TextFit.

(** ** The dynamic data *)

Module Data.

(** A Product entity as [utils.parse(data, 'Product')] returns it; a field
    the payload does not give is [Undefined]. *)
Record Product : Type := {
  name : JS.value;
  url : JS.value;
  imageUrl : JS.value;
  subTitle : JS.value;
  rating : JS.value;
  price : JS.value;
  salePrice : JS.value
}.

(** A Design entity, with the fields the script reads. *)
Record Design : Type := {
  cornerStyle : JS.value;
  btnStyle : JS.value;
  logoImageUrl : JS.value;
  bgImageUrl : JS.value;
  logoPadding : JS.value
}.

Definition set_price (p : JS.value) (product : Product) : Product :=
  {| name := name product; url := url product; imageUrl := imageUrl product;
     subTitle := subTitle product; rating := rating product;
     price := p; salePrice := salePrice product |}.

End Data.

(** ** The layout controller, the carousel and the font loader *)

Module Layout.

Definition AUTO_ROTATE_MAX_DURATION : Z := 30000.
Definition ITEM_HOLD_DUR : Z := 3500.
Definition FONTS_LOADED : string := "fontsLoaded".

Module timeout.
Definition SHORT : Z := 10.
Definition MEDIUM : Z := 125.
Definition LONG : Z := 750.
Definition EXTRA_LONG : Z := 2000.
End timeout.

Module uniformSizeSelector.
Definition DESCRIPTION : string := ".description".
Definition NAME : string := ".name".
Definition PRICE : string :=
  String.append "div[class^="
    (String (ascii_of_nat 34)
       (String.append "price"
          (String (ascii_of_nat 34)
             "]:not(.price-holder):not(.price-aligner):not(.price-wrapper)"))).
End uniformSizeSelector.

(** The functions of the script that are handed to a timer or to the web
    font loader. *)
Inductive Callback : Type :=
| NextItem                       (** [$scope.nextItem] *)
| FontsReady                     (** the function in [loadFonts] that broadcasts *)
| FontsActive                    (** the [active] function given to [WebFont.load] *)
| UniformSize (selector : string)  (** [uniformSize] applied to a selector *)
| RemoveHide                     (** the function in [showLayout] *)
| BuildAnimation.                (** the function in [layoutInit] *)

Record Timer : Type := {
  repeating : bool;      (** [setInterval] rather than [setTimeout] *)
  delay : Z;
  callback : Callback
}.

(** The argument of [WebFont.load]. *)
Record WebFontConfig : Type := {
  families : list string;
  font_timeout : Z;
  active : option Callback;
  inactive : option Callback
}.

(** [$scope] *)
Record Scope : Type := {
  itemsLimit : Z;
  currentItemIndex : Z;
  products : list Data.Product;
  (** the [FONTS_LOADED] listener of the controller is registered *)
  listening : bool;
  (** the events broadcast so far, latest first *)
  broadcasts : list string
}.

(** [window]: the live timers by handle and the next handle to give out. *)
Record Window : Type := {
  timers : gmap Z Timer;
  nextHandle : Z
}.

(** [document] *)
Record Document : Type := {
  (** [style.visibility] of [#ad-container] *)
  visibility : option string;
  (** the [.layout] element has the class [hide] *)
  layoutHidden : bool;
  (** the page work done so far ([uniformSize], [buildAnimation]), latest first *)
  performed : list Callback
}.

Record World : Type := {
  scope : Scope;
  (** the variables of the closure *)
  autoCycleInterval : JS.value;
  autoCycleStartTime : JS.value;
  window : Window;
  document : Document;
  (** the font request the web font loader is working on *)
  webfont : option WebFontConfig
}.

(** *** Field updates *)

Definition with_scope (f : Scope -> Scope) (w : World) : World :=
  {| scope := f (scope w); autoCycleInterval := autoCycleInterval w;
     autoCycleStartTime := autoCycleStartTime w; window := window w;
     document := document w; webfont := webfont w |}.

Definition with_window (f : Window -> Window) (w : World) : World :=
  {| scope := scope w; autoCycleInterval := autoCycleInterval w;
     autoCycleStartTime := autoCycleStartTime w; window := f (window w);
     document := document w; webfont := webfont w |}.

Definition with_document (f : Document -> Document) (w : World) : World :=
  {| scope := scope w; autoCycleInterval := autoCycleInterval w;
     autoCycleStartTime := autoCycleStartTime w; window := window w;
     document := f (document w); webfont := webfont w |}.

Definition set_autoCycleInterval (v : JS.value) (w : World) : World :=
  {| scope := scope w; autoCycleInterval := v;
     autoCycleStartTime := autoCycleStartTime w; window := window w;
     document := document w; webfont := webfont w |}.

Definition set_autoCycleStartTime (v : JS.value) (w : World) : World :=
  {| scope := scope w; autoCycleInterval := autoCycleInterval w;
     autoCycleStartTime := v; window := window w;
     document := document w; webfont := webfont w |}.

Definition set_webfont (c : option WebFontConfig) (w : World) : World :=
  {| scope := scope w; autoCycleInterval := autoCycleInterval w;
     autoCycleStartTime := autoCycleStartTime w; window := window w;
     document := document w; webfont := c |}.

Definition set_itemsLimit (n : Z) (s : Scope) : Scope :=
  {| itemsLimit := n; currentItemIndex := currentItemIndex s;
     products := products s; listening := listening s;
     broadcasts := broadcasts s |}.

Definition set_currentItemIndex (i : Z) (s : Scope) : Scope :=
  {| itemsLimit := itemsLimit s; currentItemIndex := i;
     products := products s; listening := listening s;
     broadcasts := broadcasts s |}.

Definition set_products (l : list Data.Product) (s : Scope) : Scope :=
  {| itemsLimit := itemsLimit s; currentItemIndex := currentItemIndex s;
     products := l; listening := listening s; broadcasts := broadcasts s |}.

Definition set_listening (b : bool) (s : Scope) : Scope :=
  {| itemsLimit := itemsLimit s; currentItemIndex := currentItemIndex s;
     products := products s; listening := b; broadcasts := broadcasts s |}.

Definition add_broadcast (e : string) (s : Scope) : Scope :=
  {| itemsLimit := itemsLimit s; currentItemIndex := currentItemIndex s;
     products := products s; listening := listening s;
     broadcasts := e :: broadcasts s |}.

Definition set_visibility (v : string) (d : Document) : Document :=
  {| visibility := Some v; layoutHidden := layoutHidden d;
     performed := performed d |}.

Definition set_layoutHidden (b : bool) (d : Document) : Document :=
  {| visibility := visibility d; layoutHidden := b; performed := performed d |}.

Definition perform (c : Callback) (d : Document) : Document :=
  {| visibility := visibility d; layoutHidden := layoutHidden d;
     performed := c :: performed d |}.

(** *** The browser's timers *)

(** [setTimeout] and [setInterval] give out a fresh handle. *)
Definition add_timer (t : Timer) (w : World) : Z * World :=
  let h := nextHandle (window w) in
  (h, with_window (fun win => {| timers := <[h := t]> (timers win);
                                 nextHandle := h + 1 |}) w).

Definition setTimeout (c : Callback) (d : Z) (w : World) : World :=
  snd (add_timer {| repeating := false; delay := d; callback := c |} w).

Definition setInterval (c : Callback) (d : Z) (w : World) : Z * World :=
  add_timer {| repeating := true; delay := d; callback := c |} w.

(** The handle an argument of [clearInterval] stands for: a value that is
    no number stands for 0, which is no timer's handle. *)
Definition handle_of (v : JS.value) : Z :=
  match JS.ToNumber v with
  | JS.Fin h => h
  | JS.NaN => 0
  end.

Definition clearInterval (v : JS.value) (w : World) : World :=
  with_window (fun win => {| timers := delete (handle_of v) (timers win);
                             nextHandle := nextHandle win |}) w.

(** *** The controller's functions *)

(** [$scope.startInterval] *)
Definition startInterval (w : World) : World :=
  let w :=
    if JS.ToBoolean (autoCycleInterval w)
    then clearInterval (autoCycleInterval w) w else w in
  let '(h, w) := setInterval NextItem ITEM_HOLD_DUR w in
  set_autoCycleInterval (JS.int h) w.

(** [$scope.startCarousel]; [now] is [new Date().getTime()]. *)
Definition startCarousel (now : Z) (w : World) : World :=
  startInterval (set_autoCycleStartTime (JS.int now) w).

(** [$scope.nextItem]; [$scope.$apply()] redraws the view, which is not
    part of the world. *)
Definition nextItem (now : Z) (w : World) : World :=
  let timeElapsed := JS.sub (JS.int now) (autoCycleStartTime w) in
  if JS.gt timeElapsed (JS.int AUTO_ROTATE_MAX_DURATION) then
    with_scope (set_currentItemIndex 0) (clearInterval (autoCycleInterval w) w)
  else if currentItemIndex (scope w) + 1 <? itemsLimit (scope w) then
    with_scope (set_currentItemIndex (currentItemIndex (scope w) + 1)) w
  else
    with_scope (set_currentItemIndex 0) w.

(** [$scope.isCurrentItemIndex] *)
Definition isCurrentItemIndex (index : Z) (w : World) : bool :=
  currentItemIndex (scope w) =? index.

Definition showLayout (w : World) : World :=
  setTimeout RemoveHide timeout.MEDIUM w.

(** [$scope.layoutInit] *)
Definition layoutInit (now : Z) (w : World) : World :=
  let w := if 1 <? itemsLimit (scope w) then startCarousel now w else w in
  let w := showLayout w in
  setTimeout BuildAnimation timeout.MEDIUM w.

(** The listener the controller registers for [FONTS_LOADED]. *)
Definition on_fontsLoaded (now : Z) (w : World) : World :=
  let w := layoutInit now w in
  let w := setTimeout (UniformSize uniformSizeSelector.PRICE) 500 w in
  let w := setTimeout (UniformSize uniformSizeSelector.NAME) 500 w in
  setTimeout (UniformSize uniformSizeSelector.DESCRIPTION) 500 w.

(** [scope.$broadcast(event)]: the registered listener runs at once. *)
Definition broadcast (event : string) (now : Z) (w : World) : World :=
  let w := with_scope (add_broadcast event) w in
  if listening (scope w) && String.eqb event FONTS_LOADED
  then on_fontsLoaded now w else w.

(** The function that both branches of [loadFonts] hand to [setTimeout]. *)
Definition fontsReady (now : Z) (w : World) : World :=
  let w := broadcast "fontsLoaded" now w in
  with_document (set_visibility "visible") w.

(** [WebFont.load(config)]: the loader takes the request. *)
Definition WebFont_load (config : WebFontConfig) (w : World) : World :=
  set_webfont (Some config) w.

(** [loadFonts]; [isIE] is [helpers.isIE()]. *)
Definition loadFonts (isIE : bool) (w : World) : World :=
  let w := with_document (set_visibility "hidden") w in
  if negb isIE then
    WebFont_load
      {| families := ["Roboto+Condensed:400,300,700:cyrillic-ext,greek-ext,vietnamese,latin-ext"%string];
         font_timeout := timeout.EXTRA_LONG;
         active := Some FontsActive;
         inactive := None |} w
  else
    setTimeout FontsReady timeout.MEDIUM w.

(** The body of the [angular.forEach] over [$scope.products]. *)
Definition sale_price (product : Data.Product) : Data.Product :=
  Data.set_price (JS.or (Data.salePrice product) (Data.price product)) product.

(** [LayoutController]; [dynamicProducts] is what
    [helpers.LayoutController] puts in [$scope.products].  The fields
    [classes], [supportStars], [fontsLoaded] and [isSafari] of the scope are
    set once and never read by the script; they are left out. *)
Definition LayoutController (isIE : bool) (dynamicProducts : list Data.Product)
    (w : World) : World :=
  let w := with_scope (set_products dynamicProducts) w in
  let w := with_scope (set_itemsLimit 1) w in
  let w := with_scope (set_currentItemIndex 0) w in
  let w := loadFonts isIE w in
  let w := with_scope (set_listening true) w in
  with_scope (fun s => set_products (List.map sale_price (products s)) s) w.

(** The [mouseover] listener of the [setItem] directive on the item with
    the given [$index]. *)
Definition setItem (index : Z) (w : World) : World :=
  startInterval (with_scope (set_currentItemIndex index) w).

(** *** The page as it runs *)

(** The page before the controller runs: no timer, nothing shown. *)
Definition page : World :=
  {| scope := {| itemsLimit := 0; currentItemIndex := 0; products := [];
                 listening := false; broadcasts := [] |};
     autoCycleInterval := JS.Undefined;
     autoCycleStartTime := JS.Undefined;
     window := {| timers := ∅; nextHandle := 1 |};
     document := {| visibility := None; layoutHidden := true; performed := [] |};
     webfont := None |}.

Definition run_callback (c : Callback) (now : Z) (w : World) : World :=
  match c with
  | NextItem => nextItem now w
  | FontsReady => fontsReady now w
  | FontsActive => setTimeout FontsReady timeout.SHORT w
  | UniformSize _ | BuildAnimation => with_document (perform c) w
  | RemoveHide => with_document (set_layoutHidden false) w
  end.

(** What happens to the page from outside the script. *)
Inductive Event : Type :=
| Fire (handle : Z) (now : Z)   (** a live timer fires while the clock reads [now] *)
| Mouseover (index : Z)         (** the pointer enters the item with this [$index] *)
| FontsLoaded (now : Z)         (** the web font loader reports the fonts active *)
| FontsFailed (now : Z).        (** the web font loader gives up (time out): inactive *)

Definition fire (handle now : Z) (w : World) : World :=
  match timers (window w) !! handle with
  | None => w
  | Some t =>
      let w :=
        if repeating t then w
        else with_window (fun win => {| timers := delete handle (timers win);
                                        nextHandle := nextHandle win |}) w in
      run_callback (callback t) now w
  end.

(** The web font loader reports once on a request: it calls the [active]
    function of the request when the fonts have rendered, and the [inactive]
    function when it gives up on them, which it does after [timeout]
    milliseconds; an outcome for which the request names no function is
    dropped. *)
Definition report (pick : WebFontConfig -> option Callback) (now : Z)
    (w : World) : World :=
  match webfont w with
  | None => w
  | Some config =>
      let w := set_webfont None w in
      match pick config with
      | Some c => run_callback c now w
      | None => w
      end
  end.

Definition step (w : World) (e : Event) : World :=
  match e with
  | Fire h now => fire h now w
  | Mouseover index => setItem index w
  | FontsLoaded now => report active now w
  | FontsFailed now => report inactive now w
  end.

Definition run (events : list Event) (w : World) : World :=
  List.fold_left step events w.

End Layout.

Import Layout.

(** ** The animation builder *)

Module Animation.

(** [LayoutTypes] *)
Inductive LayoutType : Type := SQUARE | VERTICAL | HORIZONTAL | MIN.

(** A value in the [vars] object of a tween. *)
Inductive Var : Type :=
| Number (q : Q)
| Text (s : string)
| Ease (name : string).

Inductive Method : Type := from | staggerFrom | staggerTo.

(** One call on the timeline: [tl.method(getElementsList(targets),
    duration, vars, stagger, position)]. *)
Record Tween : Type := {
  method : Method;
  targets : string;
  duration : Q;
  vars : list (string * Var);
  stagger : option Q;
  position : option string
}.

Record Build : Type := {
  (** [CSSPlugin.defaultTransformPerspective] *)
  defaultTransformPerspective : Z;
  (** the elements whose [opacity] is set to 0 first *)
  transparent : string;
  (** [onComplete] of the timeline *)
  onComplete : string;
  tweens : list Tween
}.

Definition images_fade_in : Tween :=
  {| method := staggerTo; targets := ".img-holder img"; duration := 1.35%Q;
     vars := [("opacity"%string, Number 1%Q)];
     stagger := Some 0.25%Q; position := Some "-=1.05"%string |}.

(** The tweens of the [switch]; [None] is a [layoutType] that is none of
    the four, for which no case runs. *)
Definition sequence (layoutType : option LayoutType) : list Tween :=
  match layoutType with
  | Some SQUARE =>
      [ {| method := from; targets := "#items-segment"; duration := 0.75%Q;
           vars := [("width", Number 0%Q); ("marginLeft", Text "100%");
                    ("ease", Ease "Power3.easeInOut"); ("delay", Number 0.5%Q)]%string;
           stagger := None; position := None |};
        {| method := staggerFrom; targets := ".item-panel"; duration := 0.5%Q;
           vars := [("rotationY", Number 90%Q); ("transformOrigin", Text "0% 50%")]%string;
           stagger := Some 0.4%Q; position := None |};
        images_fade_in ]
  | Some VERTICAL =>
      [ {| method := from; targets := "#items-segment"; duration := 1%Q;
           vars := [("height", Number 0%Q); ("y", Text "-=30");
                    ("ease", Ease "Power3.easeInOut"); ("delay", Number 0.5%Q)]%string;
           stagger := None; position := None |};
        {| method := from; targets := ".logo, .disclaimer-panel"; duration := 0.5%Q;
           vars := [("alpha"%string, Number 0%Q)];
           stagger := None; position := Some "-=.05"%string |};
        {| method := staggerFrom; targets := ".item-panel"; duration := 0.5%Q;
           vars := [("rotationX", Number (-90)%Q); ("transformOrigin", Text "50% 0%")]%string;
           stagger := Some 0.4%Q; position := Some "-=.4"%string |};
        images_fade_in ]
  | Some HORIZONTAL | Some MIN =>
      [ {| method := from; targets := "#items-segment"; duration := 0.75%Q;
           vars := [("width", Number 0%Q); ("marginLeft", Text "100%");
                    ("ease", Ease "Power3.easeInOut"); ("delay", Number 0.5%Q)]%string;
           stagger := None; position := None |};
        {| method := from; targets := ".logo, .disclaimer-panel"; duration := 0.5%Q;
           vars := [("alpha"%string, Number 0%Q)];
           stagger := None; position := Some "-=.05"%string |};
        {| method := staggerFrom; targets := ".item-panel"; duration := 0.5%Q;
           vars := [("rotationY", Number 90%Q); ("transformOrigin", Text "0% 50%")]%string;
           stagger := Some 0.4%Q; position := Some "-=.4"%string |};
        images_fade_in ]
  | None => []
  end.

Definition stars_fade_in : Tween :=
  {| method := staggerFrom; targets := ".star"; duration := 0.25%Q;
     vars := [("alpha"%string, Number 0%Q)];
     stagger := Some 0.075%Q; position := Some "-=1.5"%string |}.

(** [buildAnimation(scope)], by [scope.layoutType]. *)
Definition buildAnimation (layoutType : option LayoutType) : Build :=
  {| defaultTransformPerspective := 200;
     transparent := ".img-holder img";
     onComplete := "onAnimationComplete";
     tweens := sequence layoutType ++ [stars_fade_in] |}.

(** The claim as the specification words it: each of the four layout
    types has a sequence of its own. *)
Definition own_sequences : Prop :=
  forall a b : LayoutType,
    buildAnimation (Some a) = buildAnimation (Some b) -> a = b.

End Animation.

(** ** The layout specification *)

Module LayoutSpec.

Record Schema : Type := {
  meta : gmap string string;
  (** by entity and attribute: whether the attribute is required *)
  attributes : gmap (string * string) bool;
  (** by entity: the least and the greatest number of occurrences *)
  occurrences : gmap string (Z * Z)
}.

Definition no_schema : Schema :=
  {| meta := ∅; attributes := ∅; occurrences := ∅ |}.

(** Modelled from the spec: [utils.defineMeta], [utils.defineAttribute]
    and [utils.defineOccurrences] are not part of this file; each records
    its declaration in the schema. *)
Definition defineMeta (key value : string) (s : Schema) : Schema :=
  {| meta := <[key := value]> (meta s); attributes := attributes s;
     occurrences := occurrences s |}.

Definition defineAttribute (entity attribute : string) (required : bool)
    (s : Schema) : Schema :=
  {| meta := meta s;
     attributes := <[(entity, attribute) := required]> (attributes s);
     occurrences := occurrences s |}.

Definition defineOccurrences (entity : string) (min max : Z) (s : Schema) : Schema :=
  {| meta := meta s; attributes := attributes s;
     occurrences := <[entity := (min, max)]> (occurrences s) |}.

(** The declarations of the layout, in the order of the script. *)
Definition declarations : list (Schema -> Schema) :=
  [ defineMeta "version" "1.0";
    (* required *)
    defineAttribute "Headline" "productClickOnly" true;
    defineAttribute "Product" "name" true;
    defineAttribute "Product" "url" true;
    defineAttribute "Design" "imageUrl" true;
    (* optional *)
    defineAttribute "Headline" "disclaimer" false;
    defineAttribute "Headline" "cta" false;
    defineAttribute "Headline" "pricePrefix" false;
    defineAttribute "Product" "subTitle" false;
    defineAttribute "Product" "rating" false;
    defineAttribute "Product" "price" false;
    defineAttribute "Design" "borderColor" false;
    defineAttribute "Design" "bgColor" false;
    defineAttribute "Design" "bgColorAlt" false;
    defineAttribute "Design" "txtColorProduct" false;
    defineAttribute "Design" "txtColorSubTitle" false;
    defineAttribute "Design" "txtColorPricePrefix" false;
    defineAttribute "Design" "txtColorCta" false;
    defineAttribute "Design" "txtColorPrice" false;
    defineAttribute "Design" "btnColor" false;
    defineAttribute "Design" "btnRollColor" false;
    defineAttribute "Design" "txtColorDisc" false;
    defineAttribute "Design" "cornerStyle" false;
    defineAttribute "Design" "logoImageUrl" false;
    defineAttribute "Design" "logoPadding" false;
    (* occurrences *)
    defineOccurrences "Headline" 1 1;
    defineOccurrences "Design" 1 1;
    defineOccurrences "Product" 3 3 ]%string.

Definition layout_spec : Schema :=
  List.fold_left (fun s declare => declare s) declarations no_schema.

(** A Headline entity. *)
Record Headline : Type := {
  productClickOnly : JS.value;
  disclaimer : JS.value;
  cta : JS.value;
  pricePrefix : JS.value
}.

(** The entities of [dynamicData.google_template_data.adData[0]], by
    kind, as [utils.parse(data, kind)] lists them. *)
Record AdData : Type := {
  Headlines : list Headline;
  Designs : list Data.Design;
  Products : list Data.Product
}.

Definition count (entity : string) (data : AdData) : Z :=
  if String.eqb entity "Headline" then Z.of_nat (length (Headlines data))
  else if String.eqb entity "Design" then Z.of_nat (length (Designs data))
  else if String.eqb entity "Product" then Z.of_nat (length (Products data))
  else 0.

Definition within (data : AdData) (entity : string) (bounds : Z * Z) : Prop :=
  fst bounds <= count entity data <= snd bounds.

(** Modelled from the spec: the check of a payload against the declared
    occurrences is done by the schema layer, which is not part of this
    file; a payload is valid when the number of entities of every declared
    kind is within the declared bounds. *)
Definition valid (s : Schema) (data : AdData) : Prop :=
  map_Forall (within data) (occurrences s).

(** Least and greatest number are the same for every kind. *)
Definition exact (s : Schema) : Prop :=
  map_Forall (fun _ bounds => fst bounds = snd bounds) (occurrences s).

End LayoutSpec.

Import LayoutSpec.

(** ** The asset preloader bootstrap *)

Module Preload.

(** The payload handed to [window.onAdData]; [adData] stands for
    [google_template_data.adData[0]]. *)
Record DynamicData : Type := {
  adData : AdData
}.

(** The function [window.onAdData] gives to [addCompletionListener]: it
    calls [preloader.getLoadedImages()] and then
    [utils.onAdData(data, util)]. *)
Record Listener : Type := {
  listener_data : DynamicData;
  listener_util : string
}.

(** [utils.preloader], one object for the whole page. *)
Record Preloader : Type := {
  images : list JS.value;        (** the arguments of [addImage], in order *)
  listeners : list Listener;
  started : bool
}.

Record Page : Type := {
  preloader : Preloader;
  (** the calls of [utils.onAdData] so far, in order *)
  handled : list (DynamicData * string)
}.

Inductive Completion : Type :=
| Returned
| TypeError.     (** a property of [undefined] was read *)

Definition addImage (url : JS.value) (p : Preloader) : Preloader :=
  {| images := images p ++ [url]; listeners := listeners p;
     started := started p |}.

Definition addCompletionListener (l : Listener) (p : Preloader) : Preloader :=
  {| images := images p; listeners := listeners p ++ [l];
     started := started p |}.

Definition start (p : Preloader) : Preloader :=
  {| images := images p; listeners := listeners p; started := true |}.

(** [window.initPreloading]: the preloader after the call, and how the
    call ended. *)
Definition initPreloading (dynamicData : DynamicData) (p : Preloader)
    : Preloader * Completion :=
  let data := adData dynamicData in
  let design := head (Designs data) in
  let prods := Products data in
  let p := List.fold_left (fun p prod => addImage (Data.imageUrl prod) p) prods p in
  match design with
  | Some design =>
      let p := addImage (Data.logoImageUrl design) p in
      let p := addImage (Data.bgImageUrl design) p in
      (p, Returned)
  | None => (p, TypeError)
  end.

(** [window.onAdData] *)
Definition onAdData (data : DynamicData) (util : string) (page : Page)
    : Page * Completion :=
  match initPreloading data (preloader page) with
  | (p, Returned) =>
      let p := addCompletionListener
                 {| listener_data := data; listener_util := util |} p in
      let p := start p in
      ({| preloader := p; handled := handled page |}, Returned)
  | (p, TypeError) =>
      ({| preloader := p; handled := handled page |}, TypeError)
  end.

Definition run_listener (page : Page) (l : Listener) : Page :=
  {| preloader := preloader page;
     handled := handled page ++ [(listener_data l, listener_util l)] |}.

(** The preloader reports completion: its listeners run. *)
Definition complete (page : Page) : Page :=
  List.fold_left run_listener (listeners (preloader page)) page.

Definition fresh_page : Page :=
  {| preloader := {| images := []; listeners := []; started := false |};
     handled := [] |}.

End Preload.

Import Preload.

(** ** The logo fit directive: [customLogoFit] *)

Module LogoFit.

(** [parseInt(s, 10)]: leading white space, a sign, then the longest run of
    decimal digits. *)
Definition parseInt10 (s : string) : JS.num :=
  let '(sign, body) := JS.strip_sign (JS.skip_white s) in
  let '(seen, n, _) := JS.read_digits JS.digit 10 body false 0 in
  if seen then JS.Fin (sign * n) else JS.NaN.

(** [Math.max] and [Math.min] of two numbers, and [+]: [NaN] if either is. *)
Definition Math_max (a b : JS.num) : JS.num :=
  match a, b with
  | JS.Fin x, JS.Fin y => JS.Fin (Z.max x y)
  | _, _ => JS.NaN
  end.

Definition Math_min (a b : JS.num) : JS.num :=
  match a, b with
  | JS.Fin x, JS.Fin y => JS.Fin (Z.min x y)
  | _, _ => JS.NaN
  end.

Definition plus (a b : JS.num) : JS.num :=
  match a, b with
  | JS.Fin x, JS.Fin y => JS.Fin (x + y)
  | _, _ => JS.NaN
  end.

(** The constants of the helper library that the directive reads:
    [LogoPadding.MAX], [LogoPadding.MIN] and [MIN_LOGO_SIZE]. *)
Record Constants : Type := {
  LogoPadding_MAX : Z;
  LogoPadding_MIN : Z;
  MIN_LOGO_SIZE : Z
}.

(** The attributes of the element the directive is on. *)
Record Attrs : Type := {
  maxLogoPadding : option string;
  minLogoPadding : option string;
  scaletype : JS.value;
  aligntype : JS.value
}.

(** [utils.logoMargin(elem)] *)
Record Margins : Type := {
  t : JS.num;
  r : JS.num;
  b : JS.num;
  l : JS.num
}.

(** What the deferred function finds when it runs:
    [scope.design['logoPadding']], the margins of the logo, and the size of
    the parent of the element. *)
Record Reading : Type := {
  logoPadding : JS.value;
  logoMargins : Margins;
  offsetHeight : Z;
  offsetWidth : Z
}.

Record Padding : Type := {
  paddingTop : JS.num;
  paddingRight : JS.num;
  paddingBottom : JS.num;
  paddingLeft : JS.num
}.

(** [if (attrs.x) { bound = attrs.x; }] on the constant [bound]. *)
Definition bound_of (attr : option string) (bound : Z) : JS.value :=
  match attr with
  | Some a => if JS.ToBoolean (JS.Str a) then JS.Str a else JS.int bound
  | None => JS.int bound
  end.

(** [padding] after [Math.min(Math.max(minLogoPadding, padding),
    maxLogoPadding)]. *)
Definition padding_of (k : Constants) (attrs : Attrs) (reading : Reading) : JS.num :=
  let data := JS.or (logoPadding reading) (JS.int 0) in
  let padding := parseInt10 (JS.ToString data) in
  let maxLogoPadding := bound_of (maxLogoPadding attrs) (LogoPadding_MAX k) in
  let minLogoPadding := bound_of (minLogoPadding attrs) (LogoPadding_MIN k) in
  Math_min (Math_max (JS.ToNumber minLogoPadding) padding)
           (JS.ToNumber maxLogoPadding).

(** [parseInt((size - MIN_LOGO_SIZE) / 2, 10)]: half the difference, cut
    towards zero. *)
Definition available (k : Constants) (size : Z) : JS.num :=
  JS.Fin (Z.quot (size - MIN_LOGO_SIZE k) 2).

(** The four numbers of the object given to [parent.css]. *)
Definition paddings (k : Constants) (attrs : Attrs) (reading : Reading) : Padding :=
  let padding := padding_of k attrs reading in
  let logoMargins := logoMargins reading in
  let availableHeight := available k (offsetHeight reading) in
  let availableWidth := available k (offsetWidth reading) in
  {| paddingTop := Math_min availableHeight (plus padding (t logoMargins));
     paddingRight := Math_min availableWidth (plus padding (r logoMargins));
     paddingBottom := Math_min availableHeight (plus padding (b logoMargins));
     paddingLeft := Math_min availableWidth (plus padding (l logoMargins)) |}.

(** The style the parent is given: each number with ['px']. *)
Record Style : Type := {
  css_paddingTop : string;
  css_paddingRight : string;
  css_paddingBottom : string;
  css_paddingLeft : string
}.

Definition style_of (p : Padding) : Style :=
  {| css_paddingTop := JS.concat (JS.Num (paddingTop p)) "px";
     css_paddingRight := JS.concat (JS.Num (paddingRight p)) "px";
     css_paddingBottom := JS.concat (JS.Num (paddingBottom p)) "px";
     css_paddingLeft := JS.concat (JS.Num (paddingLeft p)) "px" |}.

(** One use of the directive: the variable [done] of [link], the deferred
    functions not yet run (each with the [src] it closed over), the style of
    the parent, [scope.isLogoPlaced], and the image fits made. *)
Record Logo : Type := {
  done : bool;
  deferred : list JS.value;
  parent_css : option Style;
  isLogoPlaced : bool;
  fits : list (JS.value * JS.value * JS.value)
}.

(** The directive after [link]. *)
Definition linked : Logo :=
  {| done := false; deferred := []; parent_css := None;
     isLogoPlaced := false; fits := [] |}.

(** [computeSize], the listener of [scope.$watch(attrs.loc, ...)]; [src] is
    [scope.$eval(attrs.loc)] and [checkUrl] is [scope.checkUrl]. *)
Definition computeSize (checkUrl : JS.value -> bool) (src : JS.value)
    (logo : Logo) : Logo :=
  if negb (done logo) then
    let logo :=
      if checkUrl src then
        {| done := done logo; deferred := deferred logo ++ [src];
           parent_css := parent_css logo; isLogoPlaced := isLogoPlaced logo;
           fits := fits logo |}
      else logo in
    {| done := true; deferred := deferred logo; parent_css := parent_css logo;
       isLogoPlaced := isLogoPlaced logo; fits := fits logo |}
  else logo.

(** The function given to [setTimeout(..., 0)], when it runs. *)
Definition place (k : Constants) (attrs : Attrs) (reading : Reading)
    (src : JS.value) (logo : Logo) : Logo :=
  {| done := done logo; deferred := deferred logo;
     parent_css := Some (style_of (paddings k attrs reading));
     isLogoPlaced := true;
     fits := fits logo ++ [(src, scaletype attrs, aligntype attrs)] |}.

(** The oldest deferred function runs. *)
Definition run_deferred (k : Constants) (attrs : Attrs) (reading : Reading)
    (logo : Logo) : Logo :=
  match deferred logo with
  | [] => logo
  | src :: rest =>
      place k attrs reading src
        {| done := done logo; deferred := rest; parent_css := parent_css logo;
           isLogoPlaced := isLogoPlaced logo; fits := fits logo |}
  end.

(** What happens to one use of the directive: the watched expression is
    evaluated to [src] and the listener called, or a timer fires. *)
Inductive Happening : Type :=
| Watched (src : JS.value)
| Timer (reading : Reading).

Definition happen (checkUrl : JS.value -> bool) (k : Constants) (attrs : Attrs)
    (logo : Logo) (h : Happening) : Logo :=
  match h with
  | Watched src => computeSize checkUrl src logo
  | Timer reading => run_deferred k attrs reading logo
  end.

Definition happenings (checkUrl : JS.value -> bool) (k : Constants) (attrs : Attrs)
    (hs : list Happening) (logo : Logo) : Logo :=
  List.fold_left (happen checkUrl k attrs) hs logo.

End LogoFit.

(** ** The notions the properties are stated with, and sample inputs *)

Definition span (visible : bool) (floor : option string) (style : string) : Span :=
  {| offsetParent := visible; minfontsize := floor; fontSizeStyle := style;
     span_css := None |}.

Definition element (ss : list Span) : Element := {| spans := ss; el_css := None |}.

(** The running value stands for the number [m]: it is that number, or
    the floor attribute of a span of [G] that reads as [m]. *)
Definition stands_for (G : list Span) (v : JS.value) (m : Z) : Prop :=
  v = JS.int m \/
  exists s a, In s G /\ minfontsize s = Some a /\ v = JS.Str a /\
              JS.StringToNumber a = JS.Fin m.

Definition min_with (m : Z) (c : option Z) : Z :=
  match c with Some x => Z.min m x | None => m end.

(** The number a run of digits reads as, on top of [acc]. *)
Fixpoint numeral (s : string) (acc : Z) : Z :=
  match s with
  | String c r =>
      match JS.digit c with
      | Some d => numeral r (10 * acc + d)
      | None => acc
      end
  | EmptyString => acc
  end.

Definition sample_group : list Element :=
  [ element [span true (Some "10") "8px"];
    element [span true None "14px"; span true (Some "12") "16px"];
    element [span false (Some "9") "3px"] ].

Definition shop_item (regular sale : JS.value) : Data.Product :=
  {| Data.name := JS.Str "Lamp"; Data.url := JS.Str "https://shop.example/lamp";
     Data.imageUrl := JS.Str "https://shop.example/lamp.png";
     Data.subTitle := JS.Undefined; Data.rating := JS.Undefined;
     Data.price := regular; Data.salePrice := sale |}.

(** Handles are positive and below the next one, and every live interval
    timer is the one [autoCycleInterval] names. *)
Record tracked (w : World) : Prop := {
  next_positive : 0 < nextHandle (window w);
  handles_given : forall h t, timers (window w) !! h = Some t ->
                              0 < h < nextHandle (window w);
  interval_named : forall h t, timers (window w) !! h = Some t ->
                               repeating t = true -> autoCycleInterval w = JS.int h
}.


(** No live interval timer at all. *)
Definition no_interval (w : World) : Prop :=
  forall h t, timers (window w) !! h = Some t -> repeating t = false.

Definition index_in_range (w : World) : Prop :=
  0 <= currentItemIndex (scope w) < itemsLimit (scope w).

(** A hover is on an item whose [$index] is below the limit. *)
Definition hover_within (limit : Z) (e : Event) : Prop :=
  match e with
  | Mouseover index => 0 <= index < limit
  | _ => True
  end.

(** The clock reading [now] is not beyond the cap on rotation. *)
Definition under_cap (now : Z) (w : World) : Prop :=
  JS.gt (JS.sub (JS.int now) (autoCycleStartTime w))
        (JS.int AUTO_ROTATE_MAX_DURATION) = false.

Definition sample_world : World :=
  LayoutController false [shop_item (JS.Str "12") JS.Undefined] page.

Definition sample_events : list Event :=
  [Mouseover 0; Fire 1 3500; Mouseover 0; Fire 2 7000].

Definition rotating_world : World :=
  startCarousel 1000 (LayoutController false [] page).

(** Between [w] and [w'] an interval timer for [nextItem] was registered
    under the handle that was next in [w]. *)
Definition carousel_started (w w' : World) : Prop :=
  exists t, timers (window w') !! nextHandle (window w) = Some t
            /\ repeating t = true /\ callback t = NextItem.

(** The configuration the controller sets up: one item, and a carousel
    that was never started. *)
Definition single_item (w : World) : Prop :=
  itemsLimit (scope w) = 1 /\ autoCycleStartTime w = JS.Undefined.

(** The signal went out and the ad container is visible. *)
Definition fonts_shown (w : World) : Prop :=
  In FONTS_LOADED (broadcasts (scope w))
  /\ visibility (document w) = Some "visible"%string.

(** Nothing was broadcast and the ad container is hidden. *)
Definition hidden_without_signal (w : World) : Prop :=
  broadcasts (scope w) = []
  /\ visibility (document w) = Some "hidden"%string.

(** The font request is over, nothing was broadcast, the container is
    hidden, and no live timer would change that. *)
Record stalled (w : World) : Prop := {
  stalled_request : webfont w = None;
  stalled_hidden : hidden_without_signal w;
  stalled_timers : forall h t, timers (window w) !! h = Some t ->
                               callback t = NextItem
}.

Definition design_of (logo background : JS.value) : Data.Design :=
  {| Data.cornerStyle := JS.Str "round"; Data.btnStyle := JS.Undefined;
     Data.logoImageUrl := logo; Data.bgImageUrl := background;
     Data.logoPadding := JS.Undefined |}.

Definition headline : Headline :=
  {| productClickOnly := JS.Str "true"; disclaimer := JS.Undefined;
     cta := JS.Str "Shop"; pricePrefix := JS.Undefined |}.

Definition sample_payload : DynamicData :=
  {| adData :=
       {| Headlines := [headline];
          Designs := [design_of (JS.Str "https://shop.example/logo.png") JS.Undefined];
          Products := [shop_item (JS.Str "20") (JS.Str "15");
                       shop_item (JS.Str "30") JS.Undefined;
                       shop_item (JS.Str "40") JS.Undefined] |} |}.

(** [nextItem] run at each of the clock readings in turn. *)
Definition ticks (nows : list Z) (w : World) : World :=
  List.fold_left (fun w now => nextItem now w) nows w.

(** A carousel of three items, as the controller would leave it with
    [itemsLimit] 3. *)
Definition three_items : World :=
  with_scope (set_itemsLimit 3) sample_world.

(** The callbacks that lead to the broadcast of [fontsLoaded]. *)
Definition signals (c : Callback) : bool :=
  match c with
  | FontsReady | FontsActive => true
  | _ => false
  end.

(** Nothing was broadcast, the container is hidden, the layout still has
    its [hide] class and no page work was done. *)
Definition quiet (w : World) : Prop :=
  broadcasts (scope w) = [] /\
  visibility (document w) = Some "hidden"%string /\
  layoutHidden (document w) = true /\
  performed (document w) = [].

(** Every live timer runs [nextItem], but for a one-shot timer under the
    handle [h] that broadcasts. *)
Definition waiting_on (h : Z) (w : World) : Prop :=
  forall h' tm, timers (window w) !! h' = Some tm ->
    callback tm = NextItem
    \/ (h' = h /\ callback tm = FontsReady /\ repeating tm = false).

(** Where the page is with its fonts. *)
Inductive font_phase (w : World) : Prop :=
| Requested (c : WebFontConfig) :
    webfont w = Some c -> active c = Some FontsActive -> inactive c = None ->
    quiet w ->
    (forall h tm, timers (window w) !! h = Some tm -> callback tm = NextItem) ->
    font_phase w
| Waiting (h : Z) :
    webfont w = None -> quiet w -> waiting_on h w -> font_phase w
| Signalled :
    webfont w = None ->
    broadcasts (scope w) = [FONTS_LOADED] ->
    visibility (document w) = Some "visible"%string ->
    (forall h tm, timers (window w) !! h = Some tm -> signals (callback tm) = false) ->
    font_phase w.

(** What [visit] compares with the running size: the rendered size of the
    span, or its floor where the rendered size is below it. *)
Definition element_size (s : Span) : JS.value :=
  let elementFontSize := JS.Num (JS.parseInt (fontSizeStyle s)) in
  if JS.lt elementFontSize (getAttribute s) then getAttribute s else elementFontSize.

(** Rendered sizes are not negative and floors are plain numerals. *)
Definition readable (group : list Element) : Prop :=
  (forall s x, In s (visible_spans group) ->
     JS.parseInt (fontSizeStyle s) = JS.Fin x -> 0 <= x) /\
  (forall s a, In s (visible_spans group) ->
     minfontsize s = Some a -> plain_numeral a = true).

Definition hidden_group : list Element :=
  [ element [span false (Some "10") "8px"]; element [] ].

Definition mixed_width_group : list Element :=
  [ element [span true (Some "3") "2px"];
    element [span true (Some "2000") "5px"] ].

(** Where one use of the logo directive can be after its listener was
    first called with [first]: waiting for its timer, fitted, or given up. *)
Inductive logo_phase (checkUrl : JS.value -> bool) (attrs : LogoFit.Attrs)
    (first : JS.value) (logo : LogoFit.Logo) : Prop :=
| Deferred :
    checkUrl first = true ->
    LogoFit.deferred logo = [first] -> LogoFit.fits logo = [] ->
    LogoFit.isLogoPlaced logo = false -> LogoFit.parent_css logo = None ->
    logo_phase checkUrl attrs first logo
| Fitted :
    checkUrl first = true ->
    LogoFit.deferred logo = [] ->
    LogoFit.fits logo
    = [(first, LogoFit.scaletype attrs, LogoFit.aligntype attrs)] ->
    LogoFit.isLogoPlaced logo = true ->
    logo_phase checkUrl attrs first logo
| GivenUp :
    checkUrl first = false ->
    LogoFit.deferred logo = [] -> LogoFit.fits logo = [] ->
    LogoFit.isLogoPlaced logo = false -> LogoFit.parent_css logo = None ->
    logo_phase checkUrl attrs first logo.

Definition logo_constants : LogoFit.Constants :=
  {| LogoFit.LogoPadding_MAX := 20; LogoFit.LogoPadding_MIN := 0;
     LogoFit.MIN_LOGO_SIZE := 30 |}.

Definition plain_attrs : LogoFit.Attrs :=
  {| LogoFit.maxLogoPadding := None; LogoFit.minLogoPadding := None;
     LogoFit.scaletype := JS.Str "fit"; LogoFit.aligntype := JS.Str "center" |}.

Definition logo_reading (padding : JS.value) : LogoFit.Reading :=
  {| LogoFit.logoPadding := padding;
     LogoFit.logoMargins := {| LogoFit.t := JS.Fin 2; LogoFit.r := JS.Fin 3;
                               LogoFit.b := JS.Fin 2; LogoFit.l := JS.Fin 3 |};
     LogoFit.offsetHeight := 60; LogoFit.offsetWidth := 200 |}.

(** Any address that begins with "h" passes, for the examples. *)
Definition begins_with_h (src : JS.value) : bool :=
  match src with
  | JS.Str (String "h" _) => true
  | _ => false
  end.

(** Two spans rendered below their floors, the floors of different width. *)
Definition two_floors_group : list Element :=
  [ element [span true (Some "10") "8px"];
    element [span true (Some "9") "7px"] ].

(** The claim on the bootstrap as the specification words it, for one
    payload: [window.onAdData] returns, the images registered are those of
    the Products and then a logo and a background, and the payload is
    handled when the preloader completes, not before. *)
Definition preloads_then_handles (data : DynamicData) (util : string)
    (page : Page) : Prop :=
  snd (onAdData data util page) = Returned /\
  (exists logo background,
     images (preloader (fst (onAdData data util page)))
     = images (preloader page)
       ++ List.map Data.imageUrl (Products (adData data))
       ++ [logo; background]) /\
  handled (fst (onAdData data util page)) = handled page /\
  handled (complete (fst (onAdData data util page)))
  = handled page
    ++ List.map (fun l => (listener_data l, listener_util l))
         (listeners (preloader page))
    ++ [(data, util)].

Definition payload_without_design : DynamicData :=
  {| adData := {| Headlines := [headline]; Designs := [];
                  Products := [shop_item (JS.Str "20") JS.Undefined;
                               shop_item (JS.Str "30") JS.Undefined;
                               shop_item (JS.Str "40") JS.Undefined] |} |}.

(** ** Properties *)

Example parseInt_px : JS.parseInt "12px" = JS.Fin 12.
Proof. reflexivity. Qed.

Example parseInt_fraction : JS.parseInt " 13.5px" = JS.Fin 13.
Proof. reflexivity. Qed.

Example parseInt_none : JS.parseInt "medium" = JS.NaN.
Proof. reflexivity. Qed.

Example lt_strings_by_code_unit :
  JS.lt (JS.Str "9") (JS.Str "10") = false /\ JS.lt (JS.int 9) (JS.Str "10") = true.
Proof. split; reflexivity. Qed.

Example concat_px : JS.concat (JS.int 1000) "px" = "1000px".
Proof. reflexivity. Qed.

Example uniformSize_two :
  List.map el_css (uniformSize [element [span true (Some "10") "8px"];
                                element [span true None "14px"]])
  = [Some "10px"; Some "10px"]%string.
Proof. reflexivity. Qed.

Example uniformSize_hidden :
  List.map el_css (uniformSize [element [span false None "8px"]])
  = [Some "1000px"]%string.
Proof. reflexivity. Qed.

(** Two floors of different width: the second comparison is between the
    strings "9" and "10", and "10" stays. *)
Example uniformSize_textual_order :
  List.map el_css (uniformSize [element [span true (Some "10") "8px"];
                                element [span true (Some "9") "7px"]])
  = [Some "10px"; Some "10px"]%string.
Proof. reflexivity. Qed.

(** *** Properties of [uniformSize] *)

Section ReadDigits.

Lemma digit_not_white c d : JS.digit c = Some d -> JS.is_white c = false.
Proof.
  unfold JS.digit, JS.is_white. intros H.
  destruct (_ && _) eqn:E in H; [|discriminate].
  apply andb_true_iff in E as [E1 E2].
  apply Z.leb_le in E1, E2.
  apply orb_false_iff; split.
  - apply andb_false_iff; right. apply N.leb_gt. lia.
  - apply N.eqb_neq. lia.
Qed.

Lemma digit_not_sign c d r : JS.digit c = Some d ->
  JS.strip_sign (String c r) = (1, String c r).
Proof.
  intros H. unfold JS.strip_sign.
  destruct (ascii_dec c "-") as [->|]; [discriminate H|].
  destruct (ascii_dec c "+") as [->|]; [discriminate H|].
  destruct c as [[] [] [] [] [] [] [] []]; try reflexivity; congruence.
Qed.

Lemma read_all_digits s : forall seen acc,
  forallb (fun c => match JS.digit c with Some _ => true | None => false end)
          (list_ascii_of_string s) = true ->
  exists n, JS.read_digits JS.digit 10 s seen acc
            = (seen || negb (String.eqb s EmptyString), n, EmptyString).
Proof.
  induction s as [|c s IH]; intros seen acc H; simpl in *.
  - exists acc. now rewrite orb_false_r.
  - apply andb_true_iff in H as [Hc Hs].
    destruct (JS.digit c) as [d|]; [|discriminate].
    destruct (IH true (10 * acc + d) Hs) as [n Hn].
    exists n. rewrite Hn. now rewrite orb_true_r.
Qed.

Lemma plain_numeral_number a : plain_numeral a = true ->
  exists n, JS.StringToNumber a = JS.Fin n.
Proof.
  unfold plain_numeral. intros H.
  apply andb_true_iff in H as [Hne Hall].
  destruct a as [|c r]; [discriminate|].
  pose proof Hall as Hall'. simpl in Hall'.
  apply andb_true_iff in Hall' as [Hc _].
  destruct (JS.digit c) as [d|] eqn:Hd; [|discriminate].
  unfold JS.StringToNumber. simpl JS.skip_white.
  rewrite (digit_not_white _ _ Hd), (digit_not_sign _ _ r Hd).
  destruct (read_all_digits (String c r) false 0 Hall) as [n Hn].
  rewrite Hn. simpl. now exists (1 * n).
Qed.

Lemma read_digits_numeral s : forall seen acc,
  snd (fst (JS.read_digits JS.digit 10 s seen acc)) = numeral s acc.
Proof.
  induction s as [|c s IH]; intros seen acc; simpl; [reflexivity|].
  destruct (JS.digit c); [apply IH | reflexivity].
Qed.

Lemma plain_numeral_value a : plain_numeral a = true ->
  JS.StringToNumber a = JS.Fin (numeral a 0).
Proof.
  intros Hp. destruct (plain_numeral_number a Hp) as [n Hn]. rewrite Hn.
  unfold plain_numeral in Hp. apply andb_true_iff in Hp as [Hne Hall].
  destruct a as [|c r]; [discriminate Hne|].
  pose proof Hall as Hall'. simpl in Hall'.
  apply andb_true_iff in Hall' as [Hc _].
  destruct (JS.digit c) as [d|] eqn:Hd; [|discriminate].
  unfold JS.StringToNumber in Hn. simpl JS.skip_white in Hn.
  rewrite (digit_not_white _ _ Hd), (digit_not_sign _ _ r Hd) in Hn.
  pose proof (read_digits_numeral (String c r) false 0) as Hv.
  destruct (read_all_digits (String c r) false 0 Hall) as [k Hk].
  rewrite Hk in Hn, Hv. simpl in Hn, Hv. injection Hn as <-.
  f_equal. cbn [numeral]. rewrite Hv. destruct (JS.digit c); lia.
Qed.

Lemma digit_range c d : JS.digit c = Some d ->
  0 <= d <= 9 /\ d = Z.of_N (N_of_ascii c) - 48.
Proof.
  unfold JS.digit. destruct (_ && _) eqn:E; [|discriminate].
  intros [= <-]. apply andb_true_iff in E as [E1 E2].
  apply Z.leb_le in E1, E2. lia.
Qed.

Lemma numeral_shift s : forall acc,
  forallb (fun c => match JS.digit c with Some _ => true | None => false end)
          (list_ascii_of_string s) = true ->
  numeral s acc = acc * 10 ^ Z.of_nat (String.length s) + numeral s 0
  /\ 0 <= numeral s 0 < 10 ^ Z.of_nat (String.length s).
Proof.
  induction s as [|c s IH]; intros acc H.
  - simpl. lia.
  - cbn [list_ascii_of_string forallb] in H.
    apply andb_true_iff in H as [Hc Hs].
    cbn [numeral String.length]. destruct (JS.digit c) as [d|] eqn:Hd; [|discriminate].
    destruct (digit_range _ _ Hd) as [Hr _].
    destruct (IH (10 * acc + d) Hs) as [E1 B]. destruct (IH (10 * 0 + d) Hs) as [E2 _].
    rewrite E1, E2, Nat2Z.inj_succ, Z.pow_succ_r by lia. split; nia.
Qed.

(** On runs of digits of one width the order of the strings is the order
    of the numbers. *)
Lemma compare_same_width s : forall t,
  forallb (fun c => match JS.digit c with Some _ => true | None => false end)
          (list_ascii_of_string s) = true ->
  forallb (fun c => match JS.digit c with Some _ => true | None => false end)
          (list_ascii_of_string t) = true ->
  String.length s = String.length t ->
  String.compare s t = (numeral s 0 ?= numeral t 0).
Proof.
  induction s as [|c s IH]; intros [|d t] Hs Ht Hl; try discriminate Hl.
  - reflexivity.
  - cbn [list_ascii_of_string forallb] in Hs, Ht.
    apply andb_true_iff in Hs as [Hc Hs]. apply andb_true_iff in Ht as [Hd Ht].
    injection Hl as Hl.
    cbn [String.compare numeral].
    destruct (JS.digit c) as [x|] eqn:Hx; [|discriminate].
    destruct (JS.digit d) as [y|] eqn:Hy; [|discriminate].
    destruct (digit_range _ _ Hx) as [Rx Ex]. destruct (digit_range _ _ Hy) as [Ry Ey].
    destruct (numeral_shift s (10 * 0 + x) Hs) as [E1 B1].
    destruct (numeral_shift t (10 * 0 + y) Ht) as [E2 B2].
    rewrite E1, E2, <- Hl. rewrite <- Hl in B2.
    unfold Ascii.compare. rewrite <- N2Z.inj_compare.
    destruct (Z.compare_spec (Z.of_N (N_of_ascii c)) (Z.of_N (N_of_ascii d))) as [E|L|G].
    + rewrite (IH t Hs Ht Hl). assert (x = y) as -> by lia.
      symmetry. destruct (Z.compare_spec (numeral s 0) (numeral t 0));
        [apply Z.compare_eq_iff | apply Z.compare_lt_iff | apply Z.compare_gt_iff]; nia.
    + symmetry. apply Z.compare_lt_iff. nia.
    + symmetry. apply Z.compare_gt_iff. nia.
Qed.

(** Floors written with the same number of digits are in the same order as
    strings and as numbers. *)
Lemma orders_agree_same_width (a b : Span) :
  (forall s, minfontsize a = Some s -> plain_numeral s = true) ->
  (forall t, minfontsize b = Some t -> plain_numeral t = true) ->
  (forall s t, minfontsize a = Some s -> minfontsize b = Some t ->
               String.length s = String.length t) ->
  orders_agree a b.
Proof.
  intros Ha Hb Hl s t Hs Ht.
  pose proof (Ha s Hs) as Ps. pose proof (Hb t Ht) as Pt.
  rewrite (plain_numeral_value s Ps), (plain_numeral_value t Pt).
  unfold plain_numeral in Ps, Pt.
  apply andb_true_iff in Ps as [_ Ps]. apply andb_true_iff in Pt as [_ Pt].
  unfold String.ltb. rewrite (compare_same_width s t Ps Pt (Hl s t Hs Ht)).
  simpl. unfold Z.ltb. reflexivity.
Qed.

End ReadDigits.

Section UniformSize.

(** The visible spans of the group under normalisation. *)
Variable G : list Span.
Hypothesis G_rendered : forall s x, In s G ->
  JS.parseInt (fontSizeStyle s) = JS.Fin x -> 0 <= x.
Hypothesis G_floor : forall s a, In s G ->
  minfontsize s = Some a -> plain_numeral a = true.
Hypothesis G_order : forall a b, In a G -> In b G -> orders_agree a b.

Lemma stands_for_number v m : stands_for G v m -> JS.ToNumber v = JS.Fin m.
Proof. intros [->|(s & a & _ & _ & -> & H)]; [reflexivity|exact H]. Qed.

Lemma visit_stands_for v m s :
  In s G -> offsetParent s = true -> stands_for G v m ->
  stands_for G (visit v s) (min_with m (clamped s)).
Proof.
  intros Hs Hvis Hv. pose proof (stands_for_number _ _ Hv) as Hnum.
  unfold visit, clamped, floor_of, getAttribute. rewrite Hvis.
  destruct (JS.parseInt (fontSizeStyle s)) as [|x] eqn:Hx.
  - (* the rendered size is no number: the span changes nothing *)
    assert (JS.lt (JS.Num JS.NaN)
              (match minfontsize s with Some a => JS.Str a | None => JS.Null end)
            = false) as -> by (destruct (minfontsize s); reflexivity).
    assert (JS.lt (JS.Num JS.NaN) v = false) as ->
      by (destruct v; reflexivity).
    exact Hv.
  - pose proof (G_rendered _ _ Hs Hx) as Hx0.
    assert (Hplain : JS.lt (JS.Num (JS.Fin x)) v = (x <? m)).
    { unfold JS.lt. destruct v; simpl in Hnum |- *;
        try discriminate Hnum; try (injection Hnum as <-);
        rewrite ?Hnum; reflexivity. }
    destruct (minfontsize s) as [a|] eqn:Ha.
    + destruct (plain_numeral_number a (G_floor _ _ Hs Ha)) as [f Hf].
      simpl JS.ToNumber. rewrite Hf.
      change (JS.lt (JS.Num (JS.Fin x)) (JS.Str a))
        with (JS.num_ltb (JS.Fin x) (JS.StringToNumber a)).
      rewrite Hf. simpl JS.num_ltb.
      destruct (x <? f) eqn:Hxf.
      * apply Z.ltb_lt in Hxf. rewrite Z.max_r by lia. simpl min_with.
        assert (Hcmp : JS.lt (JS.Str a) v = (f <? m)).
        { destruct Hv as [->|(s' & b & Hs' & Hb & -> & Hfb)].
          - simpl. now rewrite Hf.
          - simpl. rewrite (G_order s s' Hs Hs' a b Ha Hb), Hf, Hfb.
            reflexivity. }
        rewrite Hcmp. destruct (f <? m) eqn:Hfm.
        -- apply Z.ltb_lt in Hfm. rewrite Z.min_r by lia.
           right. now exists s, a.
        -- apply Z.ltb_ge in Hfm. rewrite Z.min_l by lia. exact Hv.
      * apply Z.ltb_ge in Hxf. rewrite Z.max_l by lia. simpl min_with.
        rewrite Hplain. destruct (x <? m) eqn:Hxm.
        -- apply Z.ltb_lt in Hxm. rewrite Z.min_r by lia. now left.
        -- apply Z.ltb_ge in Hxm. rewrite Z.min_l by lia. exact Hv.
    + simpl JS.ToNumber.
      assert (JS.lt (JS.Num (JS.Fin x)) JS.Null = false) as ->
        by (simpl; apply Z.ltb_ge; lia).
      rewrite Z.max_l by lia. simpl min_with.
      rewrite Hplain. destruct (x <? m) eqn:Hxm.
      * apply Z.ltb_lt in Hxm. rewrite Z.min_r by lia. now left.
      * apply Z.ltb_ge in Hxm. rewrite Z.min_l by lia. exact Hv.
Qed.

Lemma fold_visit_stands_for (l : list Span) : forall v m,
  (forall s, In s l -> offsetParent s = true -> In s G) ->
  stands_for G v m ->
  stands_for G (List.fold_left visit l v)
             (List.fold_left Z.min (omap clamped (List.filter offsetParent l)) m).
Proof.
  induction l as [|s l IH]; intros v m Hin Hv; simpl; [exact Hv|].
  destruct (offsetParent s) eqn:Hvis.
  - pose proof (visit_stands_for v m s (Hin s (or_introl eq_refl) Hvis) Hvis Hv) as H.
    simpl omap. unfold min_with in H.
    destruct (clamped s) as [c|]; simpl;
      apply IH; auto; intros; apply Hin; simpl; auto.
  - assert (visit v s = v) as -> by (unfold visit; now rewrite Hvis).
    apply IH; auto. intros; apply Hin; simpl; auto.
Qed.

End UniformSize.

Lemma visible_spans_In group s :
  In s (visible_spans group) <-> In s (spans_of group) /\ offsetParent s = true.
Proof. unfold visible_spans. apply List.filter_In. Qed.

Lemma uniformSize_css group :
  Forall (fun el =>
            el_css el = Some (JS.concat (smallestFontSize group) "px") /\
            forall s, head (spans el) = Some s ->
                      span_css s = Some (JS.concat (smallestFontSize group) "px"))
         (uniformSize group).
Proof.
  unfold uniformSize. apply List.Forall_forall. intros el Hel.
  apply in_map_iff in Hel as (e & <- & _). split; [reflexivity|].
  intros s. simpl. destruct (spans e); simpl; [discriminate|].
  now intros [= <-].
Qed.

(** Where the order of the floors as strings agrees with their order as
    numbers: for a group whose rendered sizes, as [parseInt] reads them, are
    not negative and whose floors are plain numerals on which the textual
    and the numeric order agree, after [uniformSize] every element of the
    group, and the first span of each, carries one and the same font size,
    and that size is [m] pixels, for [m] the minimum of 1000 and the sizes
    of the visible spans clamped up to their floors; it is written as the
    number [m] or as the floor attribute that reads as [m]. *)
Theorem uniformSize_capped_minimum (group : list Element) :
  well_formed group ->
  let m := List.fold_left Z.min (clamped_sizes group) 1000 in
  exists size : string,
    (size = px m \/
     exists s a, In s (visible_spans group) /\ minfontsize s = Some a /\
                 JS.StringToNumber a = JS.Fin m /\ size = String.append a "px") /\
    length (uniformSize group) = length group /\
    Forall (fun el => el_css el = Some size /\
                      forall s, head (spans el) = Some s -> span_css s = Some size)
           (uniformSize group).
Proof.
  intros [Hr Hf Ho] m.
  exists (JS.concat (smallestFontSize group) "px").
  split; [|split; [apply length_map | apply uniformSize_css]].
  assert (H : stands_for (visible_spans group) (smallestFontSize group) m).
  { unfold smallestFontSize, m, clamped_sizes, visible_spans.
    apply fold_visit_stands_for; auto.
    - intros s Hs Hvis. apply List.filter_In. now split.
    - now left. }
  destruct H as [->|(s & a & Hs & Ha & -> & Hn)].
  - now left.
  - right. now exists s, a.
Qed.

Lemma sample_group_well_formed : well_formed sample_group.
Proof.
  split.
  - intros s x Hs. vm_compute in Hs.
    destruct Hs as [<-|[<-|[<-|[]]]]; vm_compute; intros [= <-]; discriminate.
  - intros s a Hs. vm_compute in Hs.
    destruct Hs as [<-|[<-|[<-|[]]]]; simpl; intros [= <-]; reflexivity.
  - intros a b Ha Hb s t. vm_compute in Ha, Hb.
    destruct Ha as [<-|[<-|[<-|[]]]]; destruct Hb as [<-|[<-|[<-|[]]]]; simpl;
      intros [= <-]; intros [= <-]; reflexivity.
Qed.

Lemma uniformSize_capped_minimum_witness :
  well_formed sample_group /\
  exists size : string,
    (size = px 10 \/
     exists s a, In s (visible_spans sample_group) /\ minfontsize s = Some a /\
                 JS.StringToNumber a = JS.Fin 10 /\ size = String.append a "px") /\
    length (uniformSize sample_group) = length sample_group /\
    Forall (fun el => el_css el = Some size /\
                      forall s, head (spans el) = Some s -> span_css s = Some size)
           (uniformSize sample_group).
Proof.
  split; [exact sample_group_well_formed|].
  exact (uniformSize_capped_minimum sample_group sample_group_well_formed).
Defined.

(** The running minimum starts at 1000 and is only lowered: where every
    visible span is rendered above 1000 pixels the elements get [1000px]. *)
Lemma uniformSize_cap_counterexample :
  ~ normalised_to_minimum [element [span true None "1200px"]].
Proof.
  intros (m & Hm & Hall).
  vm_compute in Hm. injection Hm as <-.
  apply Forall_inv in Hall. vm_compute in Hall. discriminate Hall.
Qed.

(** C1, at the failing input: two elements whose spans are rendered below
    their floors, at 8px under the floor 10 and at 7px under the floor 9.
    The clamped sizes are 10 and 9, so the claim has every element at 9px.
    [uniformSize] keeps the first floor as the string "10" and compares the
    second floor with it as a string, where "9" is not below "10": every
    element is given [10px], and the group is not normalised to its
    minimum. *)
Theorem uniformSize_floors_compared_as_text :
  clamped_sizes two_floors_group = [10; 9] /\
  minimum (clamped_sizes two_floors_group) = Some 9 /\
  smallestFontSize two_floors_group = JS.Str "10" /\
  List.map el_css (uniformSize two_floors_group)
  = [Some "10px"; Some "10px"]%string /\
  ~ normalised_to_minimum two_floors_group.
Proof.
  split; [reflexivity|]. split; [reflexivity|]. split; [reflexivity|].
  split; [reflexivity|].
  intros (m & Hm & Hall). vm_compute in Hm. injection Hm as <-.
  apply Forall_inv in Hall. vm_compute in Hall. discriminate Hall.
Qed.

Example controller_starts_at_zero :
  currentItemIndex (scope (LayoutController false [] page)) = 0
  /\ itemsLimit (scope (LayoutController false [] page)) = 1.
Proof. split; reflexivity. Qed.

Example hover_sets_index :
  currentItemIndex (scope (run [Mouseover 2] (LayoutController false [] page))) = 2.
Proof. reflexivity. Qed.

Example hover_then_tick :
  currentItemIndex
    (scope (run [Mouseover 2; Fire 1 5000] (LayoutController false [] page))) = 0.
Proof. vm_compute. reflexivity. Qed.

Example ie_fonts_ready :
  let w := run [Fire 1 200] (LayoutController true [] page) in
  broadcasts (scope w) = ["fontsLoaded"%string]
  /\ visibility (document w) = Some "visible"%string.
Proof. vm_compute. split; reflexivity. Qed.

(** *** The timers of the carousel *)

Section Timers.


Lemma tracked_page : tracked page.
Proof. split; simpl; [lia | |]; intros h t H; now rewrite lookup_empty in H. Qed.

Lemma tracked_with_scope f w : tracked w -> tracked (with_scope f w).
Proof. intros [H1 H2 H3]. split; assumption. Qed.

Lemma tracked_with_document f w : tracked w -> tracked (with_document f w).
Proof. intros [H1 H2 H3]. split; assumption. Qed.

Lemma tracked_set_webfont c w : tracked w -> tracked (set_webfont c w).
Proof. intros [H1 H2 H3]. split; assumption. Qed.

Lemma tracked_set_autoCycleStartTime v w :
  tracked w -> tracked (set_autoCycleStartTime v w).
Proof. intros [H1 H2 H3]. split; assumption. Qed.



Lemma tracked_setTimeout c d w : tracked w -> tracked (setTimeout c d w).
Proof.
  intros [H1 H2 H3]. unfold setTimeout, add_timer. split; simpl.
  - lia.
  - intros h t Hl. apply lookup_insert_Some in Hl as [[<- _]|[_ Hl]].
    + lia.
    + apply H2 in Hl. lia.
  - intros h t Hl R. apply lookup_insert_Some in Hl as [[_ <-]|[_ Hl]].
    + discriminate R.
    + eauto.
Qed.

(** After [startInterval] the one live interval timer is the new one. *)
Lemma startInterval_single w :
  tracked w ->
  forall h t, timers (window (startInterval w)) !! h = Some t ->
              repeating t = true -> h = nextHandle (window w).
Proof.
  intros [H1 H2 H3] h t. unfold startInterval.
  destruct (JS.ToBoolean (autoCycleInterval w)) eqn:Hb; simpl.
  - intros Hl R. apply lookup_insert_Some in Hl as [[<- _]|[_ Hl]]; [reflexivity|].
    apply lookup_delete_Some in Hl as [Hne Hl].
    rewrite (H3 _ _ Hl R) in Hne. now elim Hne.
  - intros Hl R. apply lookup_insert_Some in Hl as [[<- _]|[_ Hl]]; [reflexivity|].
    pose proof (H3 _ _ Hl R) as E. pose proof (H2 _ _ Hl) as Hpos.
    rewrite E in Hb. simpl in Hb.
    apply negb_false_iff, Z.eqb_eq in Hb. lia.
Qed.

Lemma tracked_startInterval w : tracked w -> tracked (startInterval w).
Proof.
  intros Hw. pose proof (startInterval_single w Hw) as Hs.
  destruct Hw as [H1 H2 H3]. split.
  - unfold startInterval.
    destruct (JS.ToBoolean (autoCycleInterval w)); simpl; lia.
  - intros h t. unfold startInterval.
    destruct (JS.ToBoolean (autoCycleInterval w)); simpl; intros Hl;
      apply lookup_insert_Some in Hl as [[<- _]|[_ Hl]]; try lia.
    + apply lookup_delete_Some in Hl as [_ Hl]. apply H2 in Hl. lia.
    + apply H2 in Hl. lia.
  - intros h t Hl R. rewrite (Hs h t Hl R).
    unfold startInterval.
    destruct (JS.ToBoolean (autoCycleInterval w)); reflexivity.
Qed.

Lemma tracked_startCarousel now w : tracked w -> tracked (startCarousel now w).
Proof.
  intros H. unfold startCarousel.
  now apply tracked_startInterval, tracked_set_autoCycleStartTime.
Qed.







Lemma tracked_LayoutController isIE prods w :
  tracked w -> tracked (LayoutController isIE prods w).
Proof.
  intros H. unfold LayoutController.
  do 2 apply tracked_with_scope.
  unfold loadFonts. destruct (negb isIE).
  - unfold WebFont_load. apply tracked_set_webfont, tracked_with_document.
    now do 3 apply tracked_with_scope.
  - apply tracked_setTimeout, tracked_with_document.
    now do 3 apply tracked_with_scope.
Qed.

End Timers.


(** *** The index of the carousel *)

Section Index.

Lemma scope_startInterval w : scope (startInterval w) = scope w.
Proof.
  unfold startInterval. now destruct (JS.ToBoolean (autoCycleInterval w)).
Qed.

Lemma scope_setTimeout c d w : scope (setTimeout c d w) = scope w.
Proof. reflexivity. Qed.

Lemma scope_layoutInit now w : scope (layoutInit now w) = scope w.
Proof.
  unfold layoutInit, showLayout. rewrite !scope_setTimeout.
  destruct (1 <? _); [|reflexivity].
  unfold startCarousel. now rewrite scope_startInterval.
Qed.

(** What an event can do to the scope: nothing to the limit, and the
    index stays, goes where [nextItem] sends it, or where a hover puts it. *)
Lemma limit_nextItem now w :
  itemsLimit (scope (nextItem now w)) = itemsLimit (scope w).
Proof.
  unfold nextItem. destruct (JS.gt _ _); [reflexivity|].
  now destruct (_ <? _).
Qed.

(** A tick tests the upper bound only: it keeps an index in range, and
    brings one from above the limit back to 0. *)
Lemma nextItem_in_range now w :
  0 <= currentItemIndex (scope w) -> 0 < itemsLimit (scope w) ->
  index_in_range (nextItem now w).
Proof.
  unfold index_in_range. intros Hi Hl. rewrite limit_nextItem.
  unfold nextItem. destruct (JS.gt _ _); simpl; [lia|].
  destruct (_ <? _) eqn:E; simpl; [|lia].
  apply Z.ltb_lt in E. lia.
Qed.

Lemma nextItem_advances now w :
  under_cap now w -> index_in_range w ->
  currentItemIndex (scope (nextItem now w))
  = (currentItemIndex (scope w) + 1) mod itemsLimit (scope w).
Proof.
  unfold under_cap, index_in_range, nextItem. intros -> H.
  destruct (_ <? _) eqn:E; simpl.
  - apply Z.ltb_lt in E. now rewrite Z.mod_small by lia.
  - apply Z.ltb_ge in E.
    replace (currentItemIndex (scope w) + 1) with (itemsLimit (scope w)) by lia.
    now rewrite Z.mod_same by lia.
Qed.

Lemma scope_run_callback c now w :
  scope (run_callback c now w) = scope w
  \/ scope (run_callback c now w) = scope (nextItem now w) /\ c = NextItem
  \/ itemsLimit (scope (run_callback c now w)) = itemsLimit (scope w)
     /\ currentItemIndex (scope (run_callback c now w)) = currentItemIndex (scope w).
Proof.
  destruct c; simpl; auto.
  right; right. unfold fontsReady, broadcast.
  change (scope (with_document ?f ?x)) with (scope x).
  destruct (_ && _); [|auto].
  unfold on_fontsLoaded. rewrite !scope_setTimeout, scope_layoutInit. auto.
Qed.

Lemma in_range_step w e :
  index_in_range w -> hover_within (itemsLimit (scope w)) e ->
  index_in_range (step w e) /\ itemsLimit (scope (step w e)) = itemsLimit (scope w).
Proof.
  intros Hw He.
  assert (Hcb : forall c now w', scope w' = scope w ->
            index_in_range (run_callback c now w')
            /\ itemsLimit (scope (run_callback c now w')) = itemsLimit (scope w)).
  { intros c now w' Hs. unfold index_in_range in *.
    destruct (scope_run_callback c now w') as [E|[[E _]|[E1 E2]]].
    - rewrite E, Hs. auto.
    - rewrite E, limit_nextItem, Hs. split; [|reflexivity].
      rewrite <- Hs, <- (limit_nextItem now w').
      apply nextItem_in_range; rewrite Hs; lia.
    - rewrite E1, E2, Hs. auto. }
  destruct e as [h now|index|now|now]; cbn [step hover_within] in *.
  - unfold fire. destruct (timers (window w) !! h) as [t|]; [|auto].
    apply Hcb. now destruct (repeating t).
  - unfold setItem, index_in_range. rewrite !scope_startInterval. simpl. auto.
  - unfold report. destruct (webfont w) as [c|]; [|auto].
    destruct (active c); [now apply Hcb | auto].
  - unfold report. destruct (webfont w) as [c|]; [|auto].
    destruct (inactive c); [now apply Hcb | auto].
Qed.

Lemma in_range_run events : forall w,
  index_in_range w -> Forall (hover_within (itemsLimit (scope w))) events ->
  index_in_range (run events w)
  /\ itemsLimit (scope (run events w)) = itemsLimit (scope w).
Proof.
  induction events as [|e events IH]; intros w Hw He; simpl; [auto|].
  apply Forall_cons_1 in He as [He Hes].
  destruct (in_range_step w e Hw He) as [Hr Hl].
  rewrite <- Hl in Hes. destruct (IH _ Hr Hes) as [Hr' Hl'].
  split; [assumption | congruence].
Qed.

Lemma LayoutController_scope isIE prods w :
  itemsLimit (scope (LayoutController isIE prods w)) = 1
  /\ currentItemIndex (scope (LayoutController isIE prods w)) = 0.
Proof. unfold LayoutController, loadFonts. now destruct isIE. Qed.

End Index.

(** C2, as amended: the controller starts with the index in range; from a
    world with the index in range, every sequence of timer ticks, font
    reports and hovers whose [$index] is below the limit keeps
    [0 <= currentItemIndex < itemsLimit] and leaves the limit alone; and a
    tick under the time cap takes the index [i] reached to
    [(i + 1) mod itemsLimit]. *)
Theorem carousel_index_in_range (isIE : bool) (prods : list Data.Product)
    (w0 : World) (events : list Event) (now : Z) :
  index_in_range w0 ->
  Forall (hover_within (itemsLimit (scope w0))) events ->
  index_in_range (LayoutController isIE prods w0) /\
  let w := run events w0 in
  index_in_range w /\
  itemsLimit (scope w) = itemsLimit (scope w0) /\
  index_in_range (nextItem now w) /\
  (under_cap now w ->
   currentItemIndex (scope (nextItem now w))
   = (currentItemIndex (scope w) + 1) mod itemsLimit (scope w)).
Proof.
  intros H0 Hev. split.
  - unfold index_in_range.
    destruct (LayoutController_scope isIE prods w0) as [-> ->]. lia.
  - destruct (in_range_run events w0 H0 Hev) as [Hr Hl].
    cbv zeta. repeat split; try apply Hr; try assumption.
    + apply nextItem_in_range; unfold index_in_range in *; lia.
    + apply nextItem_in_range; unfold index_in_range in *; lia.
    + intros Hc. now apply nextItem_advances.
Qed.

Lemma carousel_index_in_range_witness :
  index_in_range sample_world /\
  Forall (hover_within (itemsLimit (scope sample_world))) sample_events /\
  index_in_range (run sample_events sample_world) /\
  currentItemIndex (scope (nextItem 10500 (run sample_events sample_world))) = 0.
Proof.
  assert (H0 : index_in_range sample_world)
    by (unfold index_in_range; simpl; lia).
  assert (Hev : Forall (hover_within (itemsLimit (scope sample_world))) sample_events)
    by (repeat constructor; simpl; lia).
  pose proof (carousel_index_in_range false [] _ _ 10500 H0 Hev) as (_ & Hr & _ & _ & Hn).
  split; [exact H0|]. split; [exact Hev|]. split; [exact Hr|].
  rewrite Hn by reflexivity. reflexivity.
Defined.

(** C2, as stated, fails on a hover over an item whose [$index] is not
    below the limit: the directive stores the index as it is. *)
Lemma carousel_hover_counterexample :
  ~ index_in_range (run [Mouseover 2] (LayoutController false [] page)).
Proof. unfold index_in_range. simpl. lia. Qed.

(** *** The cap on rotation *)

Lemma gt_cap (now start : Z) :
  JS.gt (JS.sub (JS.int now) (JS.int start)) (JS.int AUTO_ROTATE_MAX_DURATION)
  = (AUTO_ROTATE_MAX_DURATION <? now - start).
Proof. reflexivity. Qed.

(** C3: when [nextItem] runs while the clock is more than 30000 ms past the
    start of the carousel, it clears the interval [autoCycleInterval] names,
    which leaves no live interval timer, and sets the index to 0 whatever it
    was: beyond the cap a tick never advances. *)
Theorem nextItem_cap_stops (w : World) (now start : Z) :
  tracked w ->
  autoCycleStartTime w = JS.int start ->
  AUTO_ROTATE_MAX_DURATION < now - start ->
  AUTO_ROTATE_MAX_DURATION = 30000 /\
  currentItemIndex (scope (nextItem now w)) = 0 /\
  timers (window (nextItem now w))
  = delete (handle_of (autoCycleInterval w)) (timers (window w)) /\
  no_interval (nextItem now w).
Proof.
  intros Hw Hs Hc. split; [reflexivity|].
  assert (E : nextItem now w
              = with_scope (set_currentItemIndex 0)
                  (clearInterval (autoCycleInterval w) w)).
  { unfold nextItem. rewrite Hs, gt_cap.
    now apply Z.ltb_lt in Hc as ->. }
  rewrite E. split; [reflexivity|]. split; [reflexivity|].
  intros h t Hl. simpl in Hl. apply lookup_delete_Some in Hl as [Hne Hl].
  destruct (repeating t) eqn:R; [|reflexivity].
  rewrite (interval_named w Hw h t Hl R) in Hne. now elim Hne.
Qed.

Lemma nextItem_cap_stops_witness :
  tracked rotating_world /\
  autoCycleStartTime rotating_world = JS.int 1000 /\
  AUTO_ROTATE_MAX_DURATION < 31001 - 1000 /\
  currentItemIndex (scope (nextItem 31001 rotating_world)) = 0 /\
  no_interval (nextItem 31001 rotating_world).
Proof.
  assert (Hw : tracked rotating_world)
    by apply tracked_startCarousel, tracked_LayoutController, tracked_page.
  assert (Hc : AUTO_ROTATE_MAX_DURATION < 31001 - 1000) by (vm_compute; reflexivity).
  destruct (nextItem_cap_stops rotating_world 31001 1000 Hw eq_refl Hc)
    as (_ & Hi & _ & Hn).
  split; [exact Hw|]. split; [reflexivity|]. split; [exact Hc|].
  split; [exact Hi | exact Hn].
Defined.

(** In the configuration of the controller the carousel is never started:
    an interval that a hover starts has no start time to be measured
    against, and its ticks go on whatever the clock reads. *)
Example hover_interval_has_no_cap :
  autoCycleStartTime (run [Mouseover 0] (LayoutController false [] page))
  = JS.Undefined
  /\ timers (window (nextItem 10000000 (run [Mouseover 0] (LayoutController false [] page))))
     = timers (window (run [Mouseover 0] (LayoutController false [] page))).
Proof. split; reflexivity. Qed.

Example tick_at_the_cap_still_advances :
  currentItemIndex
    (scope (nextItem 31000 (with_scope (set_itemsLimit 3) rotating_world))) = 1.
Proof. reflexivity. Qed.

(** *** Starting the carousel *)

Section Start.

Lemma layoutInit_few now w :
  itemsLimit (scope w) <= 1 ->
  layoutInit now w
  = setTimeout BuildAnimation timeout.MEDIUM (setTimeout RemoveHide timeout.MEDIUM w).
Proof.
  intros H. unfold layoutInit, showLayout.
  now apply Z.ltb_ge in H as ->.
Qed.

Lemma layoutInit_many now w :
  1 < itemsLimit (scope w) ->
  layoutInit now w
  = setTimeout BuildAnimation timeout.MEDIUM
      (setTimeout RemoveHide timeout.MEDIUM (startCarousel now w)).
Proof.
  intros H. unfold layoutInit, showLayout.
  now apply Z.ltb_lt in H as ->.
Qed.

Lemma layoutInit_started_iff now w :
  carousel_started w (layoutInit now w) <-> 1 < itemsLimit (scope w).
Proof.
  unfold carousel_started. split.
  - intros (t & Hl & R & _).
    destruct (Z.lt_ge_cases 1 (itemsLimit (scope w))) as [|Hle]; [assumption|].
    rewrite layoutInit_few in Hl by assumption. simpl in Hl.
    rewrite lookup_insert_ne, lookup_insert_eq in Hl by lia.
    injection Hl as <-. discriminate R.
  - intros H. rewrite layoutInit_many by assumption.
    unfold startCarousel, startInterval.
    destruct (JS.ToBoolean _); simpl;
      rewrite !lookup_insert_ne, lookup_insert_eq by lia;
      eexists; repeat split.
Qed.

Lemma start_time_startInterval w :
  autoCycleStartTime (startInterval w) = autoCycleStartTime w.
Proof. unfold startInterval. now destruct (JS.ToBoolean _). Qed.

Lemma start_time_nextItem now w :
  autoCycleStartTime (nextItem now w) = autoCycleStartTime w.
Proof.
  unfold nextItem. destruct (JS.gt _ _); [reflexivity|]. now destruct (_ <? _).
Qed.

Lemma single_item_run_callback c now w :
  single_item w -> single_item (run_callback c now w).
Proof.
  intros [Hl Hs]. unfold single_item. destruct c; simpl; auto.
  - now rewrite limit_nextItem, start_time_nextItem.
  - unfold fontsReady, broadcast.
    destruct (_ && _); [|auto].
    unfold on_fontsLoaded. rewrite layoutInit_few by (simpl; lia). auto.
Qed.

Lemma single_item_step w e : single_item w -> single_item (step w e).
Proof.
  intros H. destruct e as [h now|index|now|now]; cbn [step].
  - unfold fire. destruct (timers (window w) !! h) as [t|]; [|assumption].
    apply single_item_run_callback. now destruct (repeating t).
  - unfold setItem, single_item.
    now rewrite scope_startInterval, start_time_startInterval.
  - unfold report. destruct (webfont w) as [c|]; [|assumption].
    destruct (active c); [apply single_item_run_callback|]; exact H.
  - unfold report. destruct (webfont w) as [c|]; [|assumption].
    destruct (inactive c); [apply single_item_run_callback|]; exact H.
Qed.

Lemma single_item_run events : forall w, single_item w -> single_item (run events w).
Proof.
  induction events as [|e events IH]; intros w H; simpl; [assumption|].
  now apply IH, single_item_step.
Qed.

Lemma single_item_LayoutController isIE prods :
  single_item (LayoutController isIE prods page).
Proof. unfold single_item, LayoutController, loadFonts. now destruct isIE. Qed.

End Start.

(** C5: [layoutInit] registers the interval timer of the carousel exactly
    when [itemsLimit] is greater than 1, and then notes the start time; the
    controller sets [itemsLimit] to 1 and nothing changes it, so in the worlds
    the page reaches [layoutInit] does not start the carousel, and the start
    time stays undefined. *)
Theorem layoutInit_starts_carousel_iff (w : World) (now : Z) (isIE : bool)
    (prods : list Data.Product) (events : list Event) :
  (carousel_started w (layoutInit now w) <-> 1 < itemsLimit (scope w)) /\
  autoCycleStartTime (layoutInit now w)
  = (if 1 <? itemsLimit (scope w) then JS.int now else autoCycleStartTime w) /\
  let reached := run events (LayoutController isIE prods page) in
  itemsLimit (scope reached) = 1 /\
  ~ carousel_started reached (layoutInit now reached) /\
  autoCycleStartTime (layoutInit now reached) = JS.Undefined.
Proof.
  split; [apply layoutInit_started_iff|]. split.
  - destruct (1 <? itemsLimit (scope w)) eqn:E.
    + apply Z.ltb_lt in E. rewrite layoutInit_many by assumption.
      unfold startCarousel.
      change (autoCycleStartTime (setTimeout ?c ?d (setTimeout ?c' ?d' ?x)))
        with (autoCycleStartTime x).
      now rewrite start_time_startInterval.
    + apply Z.ltb_ge in E. now rewrite layoutInit_few by assumption.
  - intros reached.
    destruct (single_item_run events _ (single_item_LayoutController isIE prods))
      as [Hl Hs].
    fold reached in Hl, Hs. split; [assumption|]. split.
    + rewrite layoutInit_started_iff. lia.
    + rewrite layoutInit_few by lia. exact Hs.
Qed.

(** *** The prices *)

(** C9: the controller replaces every product's [price] by
    [salePrice || price], that is by the sale price when that is a truthy
    value (a non-empty string, a number that is not 0) and by the price it
    had otherwise, and changes nothing else of the products. *)
Theorem LayoutController_sale_price (isIE : bool) (prods : list Data.Product)
    (w : World) :
  products (scope (LayoutController isIE prods w)) = List.map sale_price prods /\
  Forall2 (fun before after =>
             Data.price after
             = (if JS.ToBoolean (Data.salePrice before)
                then Data.salePrice before else Data.price before)
             /\ Data.salePrice after = Data.salePrice before
             /\ Data.name after = Data.name before
             /\ Data.url after = Data.url before
             /\ Data.imageUrl after = Data.imageUrl before
             /\ Data.subTitle after = Data.subTitle before
             /\ Data.rating after = Data.rating before)
          prods (products (scope (LayoutController isIE prods w))).
Proof.
  assert (E : products (scope (LayoutController isIE prods w))
              = List.map sale_price prods)
    by (unfold LayoutController, loadFonts; now destruct isIE).
  split; [exact E|]. rewrite E. clear E.
  induction prods as [|p prods IH]; simpl; constructor; [|exact IH].
  unfold sale_price, JS.or. simpl. repeat split.
Qed.

Example sale_price_examples :
  List.map (fun p => Data.price (sale_price p))
    [shop_item (JS.Str "20") (JS.Str "15");
     shop_item (JS.Str "20") JS.Undefined;
     shop_item (JS.Str "20") (JS.Str EmptyString)]
  = [JS.Str "15"; JS.Str "20"; JS.Str "20"].
Proof. reflexivity. Qed.

(** *** The font loader *)

Section Fonts.

Lemma stalled_startInterval w : stalled w -> stalled (startInterval w).
Proof.
  intros [H1 H2 H3]. unfold startInterval.
  destruct (JS.ToBoolean _); split; simpl; try assumption;
    intros h t Hl; apply lookup_insert_Some in Hl as [[_ <-]|[_ Hl]];
    try reflexivity; [apply lookup_delete_Some in Hl as [_ Hl]|]; eauto.
Qed.

Lemma stalled_nextItem now w : stalled w -> stalled (nextItem now w).
Proof.
  intros [H1 H2 H3]. unfold nextItem.
  destruct (JS.gt _ _); [|destruct (_ <? _)]; split; simpl; try assumption.
  intros h t Hl. apply lookup_delete_Some in Hl as [_ Hl]. eauto.
Qed.

Lemma stalled_step w e : stalled w -> stalled (step w e).
Proof.
  intros H. destruct e as [h now|index|now|now]; cbn [step].
  - unfold fire. destruct (timers (window w) !! h) as [t|] eqn:Hl; [|assumption].
    rewrite (stalled_timers w H h t Hl). simpl. apply stalled_nextItem.
    destruct (repeating t); [assumption|].
    destruct H as [H1 H2 H3]. split; simpl; try assumption.
    intros h' t' Hl'. apply lookup_delete_Some in Hl' as [_ Hl']. eauto.
  - unfold setItem. apply stalled_startInterval.
    destruct H as [H1 H2 H3]. split; assumption.
  - unfold report. now rewrite (stalled_request w H).
  - unfold report. now rewrite (stalled_request w H).
Qed.

Lemma stalled_run events : forall w, stalled w -> stalled (run events w).
Proof.
  induction events as [|e events IH]; intros w H; simpl; [assumption|].
  now apply IH, stalled_step.
Qed.

Lemma stalled_after_failure prods now :
  stalled (step (LayoutController false prods page) (FontsFailed now)).
Proof.
  split; try split; try reflexivity.
  intros h t Hl. simpl in Hl. now rewrite lookup_empty in Hl.
Qed.

End Fonts.

(** C4, on the three paths of the font loader.  On Internet Explorer the
    timer [loadFonts] sets broadcasts [fontsLoaded] and shows the container
    when it fires, and so does the timer set by the [active] function when
    the fonts load.  When the loader gives up on the fonts it reports to the
    [inactive] function, and the request names none: whatever happens to the
    page afterwards, nothing is broadcast and the container stays hidden. *)
Theorem loadFonts_paths (prods : list Data.Product) (now later : Z)
    (events : list Event) :
  fonts_shown (run [Fire 1 now] (LayoutController true prods page)) /\
  fonts_shown (run [FontsLoaded now; Fire 1 later] (LayoutController false prods page)) /\
  hidden_without_signal (LayoutController false prods page) /\
  hidden_without_signal
    (run (FontsFailed now :: events) (LayoutController false prods page)).
Proof.
  split; [|split; [|split]].
  - split; [now left | reflexivity].
  - split; [now left | reflexivity].
  - split; reflexivity.
  - apply stalled_hidden.
    exact (stalled_run events _ (stalled_after_failure prods now)).
Qed.

(** C6, as stated, fails: the [switch] gives HORIZONTAL and MIN one case, so
    the two share their sequence. *)
Lemma buildAnimation_shared_counterexample : ~ Animation.own_sequences.
Proof.
  intros H. specialize (H Animation.HORIZONTAL Animation.MIN eq_refl).
  discriminate H.
Qed.

(** C6, as amended: [buildAnimation] selects among three fixed sequences by
    the layout type: SQUARE and VERTICAL each have their own, HORIZONTAL and
    MIN share the third; every build ends with the tween of the stars. *)
Theorem buildAnimation_three_sequences :
  Animation.buildAnimation (Some Animation.MIN)
  = Animation.buildAnimation (Some Animation.HORIZONTAL) /\
  Animation.buildAnimation (Some Animation.SQUARE)
  <> Animation.buildAnimation (Some Animation.VERTICAL) /\
  Animation.buildAnimation (Some Animation.SQUARE)
  <> Animation.buildAnimation (Some Animation.HORIZONTAL) /\
  Animation.buildAnimation (Some Animation.VERTICAL)
  <> Animation.buildAnimation (Some Animation.HORIZONTAL) /\
  (forall t, List.last (Animation.tweens (Animation.buildAnimation t))
                       Animation.images_fade_in = Animation.stars_fade_in) /\
  List.map (fun t => length (Animation.sequence (Some t)))
           [Animation.SQUARE; Animation.VERTICAL; Animation.HORIZONTAL; Animation.MIN]
  = [3; 4; 4; 4]%nat.
Proof.
  split; [reflexivity|].
  split; [discriminate|]. split; [discriminate|]. split; [discriminate|].
  split; [|reflexivity].
  intros [[]|]; reflexivity.
Qed.

Lemma layout_spec_occurrences :
  occurrences layout_spec
  = <["Product"%string := (3, 3)]>
      (<["Design"%string := (1, 1)]> (<["Headline"%string := (1, 1)]> ∅)).
Proof. reflexivity. Qed.

Lemma valid_layout_spec_iff (data : AdData) :
  valid layout_spec data <->
  length (Headlines data) = 1%nat /\ length (Designs data) = 1%nat
  /\ length (Products data) = 3%nat.
Proof.
  unfold valid. rewrite layout_spec_occurrences. split.
  - intros H.
    pose proof (H "Headline"%string (1, 1) eq_refl) as Hh.
    pose proof (H "Design"%string (1, 1) eq_refl) as Hd.
    pose proof (H "Product"%string (3, 3) eq_refl) as Hp.
    unfold within, count in Hh, Hd, Hp. simpl in Hh, Hd, Hp. lia.
  - intros (Hh & Hd & Hp).
    repeat (apply map_Forall_insert_2;
            [unfold within, count; simpl; lia|]).
    apply map_Forall_empty.
Qed.

(** C7: the layout declares the occurrences of Headline as 1 to 1, of Design
    as 1 to 1 and of Product as 3 to 3, least and greatest number the same
    for each; so a payload is valid under the declared occurrences exactly
    when it has 1 Headline, 1 Design and 3 Products. *)
Theorem layout_spec_exact_occurrences (data : AdData) :
  occurrences layout_spec !! "Headline"%string = Some (1, 1) /\
  occurrences layout_spec !! "Design"%string = Some (1, 1) /\
  occurrences layout_spec !! "Product"%string = Some (3, 3) /\
  exact layout_spec /\
  (valid layout_spec data <->
   length (Headlines data) = 1%nat /\ length (Designs data) = 1%nat
   /\ length (Products data) = 3%nat).
Proof.
  split; [reflexivity|]. split; [reflexivity|]. split; [reflexivity|].
  split; [|apply valid_layout_spec_iff].
  unfold exact. rewrite layout_spec_occurrences.
  repeat (apply map_Forall_insert_2; [reflexivity|]). apply map_Forall_empty.
Qed.

Lemma fold_addImage (prods : list Data.Product) : forall p,
  List.fold_left (fun p prod => addImage (Data.imageUrl prod) p) prods p
  = {| images := images p ++ List.map Data.imageUrl prods;
       listeners := listeners p; started := started p |}.
Proof.
  induction prods as [|x prods IH]; intros p; simpl.
  - rewrite app_nil_r. now destruct p.
  - rewrite IH. simpl. now rewrite <- app_assoc.
Qed.

Lemma complete_handled (page : Page) :
  handled (complete page)
  = handled page
    ++ List.map (fun l => (listener_data l, listener_util l))
         (listeners (preloader page)).
Proof.
  unfold complete. generalize (listeners (preloader page)) as ls.
  intros ls. revert page.
  induction ls as [|l ls IH]; intros page; simpl.
  - now rewrite app_nil_r.
  - rewrite IH. simpl. now rewrite <- app_assoc.
Qed.

(** C8, as amended: for every payload that has a Design,
    [window.onAdData] registers with the preloader the image URL of every
    Product, then the logo image URL and the background image URL of the
    Design, and nothing else; it adds its completion listener and starts the
    preloader without calling [utils.onAdData], which is called with the
    payload when the preloader reports completion. *)
Theorem onAdData_preloads_then_handles (data : DynamicData) (util : string)
    (page : Page) (design : Data.Design) :
  head (Designs (adData data)) = Some design ->
  let after := fst (onAdData data util page) in
  snd (onAdData data util page) = Returned /\
  images (preloader after)
  = images (preloader page)
    ++ List.map Data.imageUrl (Products (adData data))
    ++ [Data.logoImageUrl design; Data.bgImageUrl design] /\
  listeners (preloader after)
  = listeners (preloader page)
    ++ [{| listener_data := data; listener_util := util |}] /\
  started (preloader after) = true /\
  handled after = handled page /\
  handled (complete after)
  = handled page
    ++ List.map (fun l => (listener_data l, listener_util l))
         (listeners (preloader page))
    ++ [(data, util)].
Proof.
  intros Hd after.
  assert (E : onAdData data util page
    = ({| preloader :=
            start (addCompletionListener
                     {| listener_data := data; listener_util := util |}
                     (addImage (Data.bgImageUrl design)
                        (addImage (Data.logoImageUrl design)
                           {| images := images (preloader page)
                                ++ List.map Data.imageUrl (Products (adData data));
                              listeners := listeners (preloader page);
                              started := started (preloader page) |})));
          handled := handled page |}, Returned)).
  { unfold onAdData, initPreloading. now rewrite Hd, fold_addImage. }
  unfold after. rewrite complete_handled, E. simpl.
  rewrite <- !app_assoc, List.map_app. simpl. repeat split.
Qed.

Lemma onAdData_preloads_then_handles_witness :
  head (Designs (adData sample_payload))
  = Some (design_of (JS.Str "https://shop.example/logo.png") JS.Undefined) /\
  images (preloader (fst (onAdData sample_payload "util" fresh_page)))
  = [JS.Str "https://shop.example/lamp.png"; JS.Str "https://shop.example/lamp.png";
     JS.Str "https://shop.example/lamp.png"; JS.Str "https://shop.example/logo.png";
     JS.Undefined] /\
  handled (fst (onAdData sample_payload "util" fresh_page)) = [] /\
  handled (complete (fst (onAdData sample_payload "util" fresh_page)))
  = [(sample_payload, "util"%string)].
Proof.
  destruct (onAdData_preloads_then_handles sample_payload "util" fresh_page _ eq_refl)
    as (_ & Hi & _ & _ & Hh & Hc).
  split; [reflexivity|]. split; [exact Hi|]. split; [exact Hh | exact Hc].
Defined.

(** C8, as stated, fails on a payload without a Design: the images of the
    Products are registered, then reading [design.logoImageUrl] throws; no
    logo or background is registered, no listener is added and the preloader
    is not started, so the data is never handled. *)
Lemma onAdData_every_payload_counterexample :
  ~ preloads_then_handles payload_without_design "util" fresh_page.
Proof.
  intros (Hreturned & _). vm_compute in Hreturned. discriminate Hreturned.
Qed.

Example sample_payload_valid : valid layout_spec (adData sample_payload).
Proof. apply valid_layout_spec_iff. repeat split. Qed.

(** Without a Design the Products are registered and then reading
    [design.logoImageUrl] throws: no listener is added, nothing starts. *)
Example onAdData_without_design :
  onAdData {| adData := {| Headlines := [headline]; Designs := [];
                           Products := [shop_item (JS.Str "20") JS.Undefined] |} |}
           "util" fresh_page
  = ({| preloader := {| images := [JS.Str "https://shop.example/lamp.png"];
                        listeners := []; started := false |};
        handled := [] |}, TypeError).
Proof. reflexivity. Qed.

(** ** Further properties of the carousel *)

Section Rotation.

Lemma ticks_start_time nows : forall w,
  autoCycleStartTime (ticks nows w) = autoCycleStartTime w.
Proof.
  induction nows as [|now nows IH]; intros w; simpl; [reflexivity|].
  unfold ticks in IH. now rewrite IH, start_time_nextItem.
Qed.

Lemma ticks_advance nows : forall w,
  index_in_range w ->
  Forall (fun now => under_cap now w) nows ->
  index_in_range (ticks nows w)
  /\ itemsLimit (scope (ticks nows w)) = itemsLimit (scope w)
  /\ currentItemIndex (scope (ticks nows w))
     = (currentItemIndex (scope w) + Z.of_nat (length nows)) mod itemsLimit (scope w).
Proof.
  induction nows as [|now nows IH]; intros w Hr Hc.
  - simpl. unfold index_in_range in Hr.
    rewrite Z.add_0_r, Z.mod_small by lia. auto.
  - apply Forall_cons_1 in Hc as [Hnow Hrest].
    assert (Hr' : index_in_range (nextItem now w))
      by (apply nextItem_in_range; unfold index_in_range in Hr; lia).
    assert (Hrest' : Forall (fun now0 => under_cap now0 (nextItem now w)) nows).
    { eapply List.Forall_impl; [|exact Hrest]. intros a Ha.
      unfold under_cap in *. now rewrite start_time_nextItem. }
    destruct (IH _ Hr' Hrest') as (H1 & H2 & H3).
    change (ticks (now :: nows) w) with (ticks nows (nextItem now w)).
    rewrite H2, H3, limit_nextItem, (nextItem_advances now w Hnow Hr).
    split; [assumption|]. split; [reflexivity|].
    unfold index_in_range in Hr.
    rewrite Zplus_mod_idemp_l. f_equal. cbn [length]. lia.
Qed.

(** What [nextItem] does beyond the cap. *)
Lemma nextItem_beyond_cap w now start :
  autoCycleStartTime w = JS.int start ->
  AUTO_ROTATE_MAX_DURATION < now - start ->
  nextItem now w
  = with_scope (set_currentItemIndex 0) (clearInterval (autoCycleInterval w) w).
Proof.
  intros Hs Hc. unfold nextItem. rewrite Hs, gt_cap.
  now apply Z.ltb_lt in Hc as ->.
Qed.

End Rotation.

(** X1: under the time cap the carousel cycles: from an index in range, [n]
    ticks take the index [i] to [(i + n) mod itemsLimit], so [itemsLimit]
    ticks bring every item up once and return to where they began. *)
Theorem carousel_cycles (w : World) (nows : list Z) :
  index_in_range w ->
  Forall (fun now => under_cap now w) nows ->
  currentItemIndex (scope (ticks nows w))
  = (currentItemIndex (scope w) + Z.of_nat (length nows)) mod itemsLimit (scope w)
  /\ (Z.of_nat (length nows) = itemsLimit (scope w) ->
      currentItemIndex (scope (ticks nows w)) = currentItemIndex (scope w)).
Proof.
  intros Hr Hc. destruct (ticks_advance nows w Hr Hc) as (_ & _ & E).
  split; [exact E|]. intros Hn. rewrite E, Hn.
  unfold index_in_range in Hr.
  replace (currentItemIndex (scope w) + itemsLimit (scope w))
    with (currentItemIndex (scope w) + 1 * itemsLimit (scope w)) by lia.
  rewrite Z_mod_plus_full. apply Z.mod_small. lia.
Qed.

Lemma carousel_cycles_witness :
  index_in_range three_items /\
  Forall (fun now => under_cap now three_items) [3500; 7000; 10500] /\
  currentItemIndex (scope (ticks [3500; 7000; 10500] three_items)) = 0.
Proof.
  assert (Hr : index_in_range three_items) by (unfold index_in_range; simpl; lia).
  assert (Hc : Forall (fun now => under_cap now three_items) [3500; 7000; 10500])
    by (repeat constructor).
  destruct (carousel_cycles three_items [3500; 7000; 10500] Hr Hc) as [_ Hback].
  split; [exact Hr|]. split; [exact Hc|]. exact (Hback eq_refl).
Defined.

Section Hover.

(** The interval a hover starts is live under the handle that was next. *)
Lemma setItem_timer index w :
  timers (window (setItem index w)) !! nextHandle (window w)
  = Some {| repeating := true; delay := ITEM_HOLD_DUR; callback := NextItem |}.
Proof.
  unfold setItem, startInterval.
  destruct (JS.ToBoolean _); simpl; apply lookup_insert_eq.
Qed.

Lemma fire_setItem index now w :
  fire (nextHandle (window w)) now (setItem index w)
  = nextItem now (setItem index w).
Proof. unfold fire. now rewrite setItem_timer. Qed.

Lemma setItem_index index w : currentItemIndex (scope (setItem index w)) = index.
Proof. unfold setItem. now rewrite scope_startInterval. Qed.

Lemma setItem_limit index w :
  itemsLimit (scope (setItem index w)) = itemsLimit (scope w).
Proof. unfold setItem. now rewrite scope_startInterval. Qed.

Lemma nextItem_last now w :
  itemsLimit (scope w) <= currentItemIndex (scope w) + 1 ->
  currentItemIndex (scope (nextItem now w)) = 0.
Proof.
  intros H. unfold nextItem. destruct (JS.gt _ _); [reflexivity|].
  now apply Z.ltb_ge in H as ->.
Qed.

End Hover.

(** X2: a hover on the last item, or on an item whose [$index] is beyond
    the limit, shows that item only until the interval the hover started
    ticks: that tick puts the index back to 0, whatever the clock reads. *)
Theorem hover_beyond_limit_repaired (w : World) (index now : Z) :
  itemsLimit (scope w) <= index + 1 ->
  currentItemIndex (scope (run [Mouseover index] w)) = index /\
  currentItemIndex
    (scope (run [Mouseover index; Fire (nextHandle (window w)) now] w)) = 0.
Proof.
  intros H. cbn [run List.fold_left step]. rewrite fire_setItem.
  split; [apply setItem_index|].
  apply nextItem_last. now rewrite setItem_limit, setItem_index.
Qed.

Lemma hover_beyond_limit_repaired_witness :
  itemsLimit (scope sample_world) <= 2 + 1 /\
  currentItemIndex (scope (run [Mouseover 2] sample_world)) = 2 /\
  currentItemIndex
    (scope (run [Mouseover 2; Fire (nextHandle (window sample_world)) 4000]
                sample_world)) = 0.
Proof.
  assert (H : itemsLimit (scope sample_world) <= 2 + 1) by (simpl; lia).
  split; [exact H|]. exact (hover_beyond_limit_repaired sample_world 2 4000 H).
Defined.

(** X3: in the worlds the page reaches from the controller's start the
    carousel was never started, so no clock reading is beyond the cap: a
    tick never clears a timer there, and the interval a hover starts goes on
    ticking after 30000 ms. *)
Theorem ticks_uncapped_without_start (isIE : bool) (prods : list Data.Product)
    (events : list Event) (now : Z) :
  let w := run events (LayoutController isIE prods page) in
  under_cap now w /\
  window (nextItem now w) = window w /\
  autoCycleInterval (nextItem now w) = autoCycleInterval w.
Proof.
  intros w.
  destruct (single_item_run events _ (single_item_LayoutController isIE prods))
    as [_ Hs]. fold w in Hs.
  assert (Hc : under_cap now w) by (unfold under_cap; now rewrite Hs).
  split; [exact Hc|]. unfold nextItem. unfold under_cap in Hc. rewrite Hc.
  now destruct (_ <? _).
Qed.

(** X4: a hover does not move the start time of the carousel.  Once the
    clock is beyond the cap, a hover starts a new interval, and the first
    tick of that interval clears it again and puts the index back to 0. *)
Theorem hover_beyond_cap_stops_again (w : World) (index now start : Z) :
  tracked w ->
  autoCycleStartTime w = JS.int start ->
  AUTO_ROTATE_MAX_DURATION < now - start ->
  let hovered := run [Mouseover index] w in
  let ticked := run [Mouseover index; Fire (nextHandle (window w)) now] w in
  autoCycleStartTime hovered = JS.int start /\
  ~ no_interval hovered /\
  currentItemIndex (scope ticked) = 0 /\
  no_interval ticked.
Proof.
  intros Hw Hs Hc hovered ticked.
  assert (Hs' : autoCycleStartTime (setItem index w) = JS.int start)
    by (unfold setItem; now rewrite start_time_startInterval).
  assert (Ht : tracked (setItem index w))
    by (unfold setItem; now apply tracked_startInterval, tracked_with_scope).
  split; [exact Hs'|]. split.
  - intros Hno. pose proof (Hno _ _ (setItem_timer index w)) as R. discriminate R.
  - unfold ticked. cbn [run List.fold_left step]. rewrite fire_setItem.
    rewrite (nextItem_beyond_cap _ now start Hs' Hc).
    split; [reflexivity|].
    generalize dependent (setItem index w). intros w1 _ Ht.
    intros h t Hl. simpl in Hl. apply lookup_delete_Some in Hl as [Hne Hl].
    destruct (repeating t) eqn:R; [|reflexivity].
    rewrite (interval_named _ Ht h t Hl R) in Hne. now elim Hne.
Qed.

Lemma hover_beyond_cap_stops_again_witness :
  tracked rotating_world /\
  autoCycleStartTime rotating_world = JS.int 1000 /\
  AUTO_ROTATE_MAX_DURATION < 40000 - 1000 /\
  currentItemIndex
    (scope (run [Mouseover 0; Fire (nextHandle (window rotating_world)) 40000]
                rotating_world)) = 0 /\
  no_interval
    (run [Mouseover 0; Fire (nextHandle (window rotating_world)) 40000]
         rotating_world).
Proof.
  assert (Hw : tracked rotating_world)
    by apply tracked_startCarousel, tracked_LayoutController, tracked_page.
  assert (Hc : AUTO_ROTATE_MAX_DURATION < 40000 - 1000) by (vm_compute; reflexivity).
  destruct (hover_beyond_cap_stops_again rotating_world 0 40000 1000 Hw eq_refl Hc)
    as (_ & _ & Hi & Hn).
  split; [exact Hw|]. split; [reflexivity|]. split; [exact Hc|].
  split; [exact Hi | exact Hn].
Defined.

(** ** The fonts signal along a run *)

Section FontPhase.

Lemma nextItem_page now w :
  webfont (nextItem now w) = webfont w /\
  document (nextItem now w) = document w /\
  broadcasts (scope (nextItem now w)) = broadcasts (scope w) /\
  (forall h tm, timers (window (nextItem now w)) !! h = Some tm ->
                timers (window w) !! h = Some tm).
Proof.
  unfold nextItem. destruct (JS.gt _ _); [|destruct (_ <? _)]; simpl;
    repeat split; auto.
  intros h tm Hl. now apply lookup_delete_Some in Hl as [_ Hl].
Qed.

Lemma startInterval_page w :
  webfont (startInterval w) = webfont w /\
  document (startInterval w) = document w /\
  scope (startInterval w) = scope w /\
  (forall h tm, timers (window (startInterval w)) !! h = Some tm ->
                timers (window w) !! h = Some tm \/ callback tm = NextItem).
Proof.
  unfold startInterval. destruct (JS.ToBoolean _); simpl; repeat split; auto;
    intros h tm Hl; apply lookup_insert_Some in Hl as [[_ <-]|[_ Hl]]; auto.
  apply lookup_delete_Some in Hl as [_ Hl]. auto.
Qed.

Lemma setTimeout_page c d w :
  webfont (setTimeout c d w) = webfont w /\
  document (setTimeout c d w) = document w /\
  scope (setTimeout c d w) = scope w /\
  (forall h tm, timers (window (setTimeout c d w)) !! h = Some tm ->
     timers (window w) !! h = Some tm
     \/ (h = nextHandle (window w) /\ callback tm = c /\ repeating tm = false)).
Proof.
  unfold setTimeout, add_timer. simpl. repeat split; auto.
  intros h tm Hl. apply lookup_insert_Some in Hl as [[<- <-]|[_ Hl]]; auto.
Qed.

Lemma on_fontsLoaded_page now w :
  webfont (on_fontsLoaded now w) = webfont w /\
  document (on_fontsLoaded now w) = document w /\
  scope (on_fontsLoaded now w) = scope w /\
  (forall h tm, timers (window (on_fontsLoaded now w)) !! h = Some tm ->
     timers (window w) !! h = Some tm \/ signals (callback tm) = false).
Proof.
  assert (Hstart : forall x,
    webfont (startCarousel now x) = webfont x /\
    document (startCarousel now x) = document x /\
    scope (startCarousel now x) = scope x /\
    (forall h tm, timers (window (startCarousel now x)) !! h = Some tm ->
       timers (window x) !! h = Some tm \/ signals (callback tm) = false)).
  { intros x. unfold startCarousel.
    destruct (startInterval_page (set_autoCycleStartTime (JS.int now) x))
      as (H1 & H2 & H3 & H4).
    repeat split; auto. intros h tm Hl.
    destruct (H4 h tm Hl) as [|E]; [now left | right; now rewrite E]. }
  assert (Hlater : forall c d x y,
    signals c = false ->
    (webfont x = webfont y /\ document x = document y /\ scope x = scope y /\
     (forall h tm, timers (window x) !! h = Some tm ->
        timers (window y) !! h = Some tm \/ signals (callback tm) = false)) ->
    webfont (setTimeout c d x) = webfont y /\
    document (setTimeout c d x) = document y /\
    scope (setTimeout c d x) = scope y /\
    (forall h tm, timers (window (setTimeout c d x)) !! h = Some tm ->
       timers (window y) !! h = Some tm \/ signals (callback tm) = false)).
  { intros c d x y Hc (H1 & H2 & H3 & H4).
    destruct (setTimeout_page c d x) as (G1 & G2 & G3 & G4).
    repeat split; try congruence.
    intros h tm Hl. destruct (G4 h tm Hl) as [Hold|(_ & E & _)]; [auto|].
    right. now rewrite E. }
  unfold on_fontsLoaded, layoutInit, showLayout.
  repeat (apply Hlater; [reflexivity|]).
  destruct (1 <? _); [apply Hstart|]. repeat split; auto.
Qed.

Lemma font_phase_nextItem now w : font_phase w -> font_phase (nextItem now w).
Proof.
  destruct (nextItem_page now w) as (Hw & Hd & Hb & Ht).
  intros [c H1 H2 H3 (Q1 & Q2 & Q3 & Q4) H5|h H1 (Q1 & Q2 & Q3 & Q4) H3|H1 H2 H3 H4].
  - apply (Requested _ c); try congruence.
    + unfold quiet. rewrite Hd, Hb. auto.
    + intros h tm Hl. eauto.
  - apply (Waiting _ h); try congruence.
    + unfold quiet. rewrite Hd, Hb. auto.
    + intros h' tm Hl. eauto.
  - apply Signalled; try congruence. intros h tm Hl. eauto.
Qed.

Lemma font_phase_setItem index w : font_phase w -> font_phase (setItem index w).
Proof.
  unfold setItem.
  destruct (startInterval_page (with_scope (set_currentItemIndex index) w))
    as (Hw & Hd & Hs & Ht).
  change (webfont (with_scope (set_currentItemIndex index) w)) with (webfont w) in Hw.
  change (document (with_scope (set_currentItemIndex index) w)) with (document w) in Hd.
  change (window (with_scope (set_currentItemIndex index) w)) with (window w) in Ht.
  assert (Hb : broadcasts (scope (startInterval (with_scope (set_currentItemIndex index) w)))
               = broadcasts (scope w)) by now rewrite Hs.
  intros [c H1 H2 H3 (Q1 & Q2 & Q3 & Q4) H5|h H1 (Q1 & Q2 & Q3 & Q4) H3|H1 H2 H3 H4].
  - apply (Requested _ c); try congruence.
    + unfold quiet. rewrite Hd, Hb. auto.
    + intros h tm Hl. destruct (Ht h tm Hl); eauto.
  - apply (Waiting _ h); try congruence.
    + unfold quiet. rewrite Hd, Hb. auto.
    + intros h' tm Hl. destruct (Ht h' tm Hl) as [Hold|E]; [eauto | now left].
  - apply Signalled; try congruence.
    intros h tm Hl. destruct (Ht h tm Hl) as [Hold|E]; [eauto | now rewrite E].
Qed.

(** The function [fontsReady], run where nothing signals any more. *)
Lemma font_phase_fontsReady now w :
  webfont w = None -> broadcasts (scope w) = [] ->
  (forall h tm, timers (window w) !! h = Some tm -> signals (callback tm) = false) ->
  font_phase (fontsReady now w).
Proof.
  intros H1 H2 H3. unfold fontsReady, broadcast.
  set (w1 := with_scope (add_broadcast "fontsLoaded") w).
  assert (Hb : broadcasts (scope w1) = [FONTS_LOADED]) by (simpl; now rewrite H2).
  destruct (listening (scope w1) && String.eqb "fontsLoaded" FONTS_LOADED).
  - destruct (on_fontsLoaded_page now w1) as (G1 & G2 & G3 & G4).
    apply Signalled.
    + change (webfont (on_fontsLoaded now w1) = None). now rewrite G1.
    + change (broadcasts (scope (on_fontsLoaded now w1)) = [FONTS_LOADED]).
      now rewrite G3.
    + reflexivity.
    + intros h tm Hl.
      change (timers (window (on_fontsLoaded now w1)) !! h = Some tm) in Hl.
      destruct (G4 h tm Hl) as [Hold|E]; [exact (H3 h tm Hold) | exact E].
  - apply Signalled; [exact H1 | exact Hb | reflexivity | exact H3].
Qed.

Lemma font_phase_step w e : font_phase w -> font_phase (step w e).
Proof.
  intros Hp. destruct e as [h now|index|now|now]; cbn [step].
  - unfold fire. destruct (timers (window w) !! h) as [tm|] eqn:Hl; [|assumption].
    set (w1 := if repeating tm then w
               else with_window (fun win => {| timers := delete h (timers win);
                                               nextHandle := nextHandle win |}) w).
    assert (Hsub : forall h' tm', timers (window w1) !! h' = Some tm' ->
                                   timers (window w) !! h' = Some tm').
    { unfold w1. destruct (repeating tm); [auto|]. simpl. intros h' tm' Hl'.
      now apply lookup_delete_Some in Hl' as [_ Hl']. }
    assert (Hsame : webfont w1 = webfont w /\ document w1 = document w
                    /\ scope w1 = scope w)
      by (unfold w1; now destruct (repeating tm)).
    destruct Hsame as (Ew & Ed & Es).
    assert (Hp1 : font_phase w1).
    { destruct Hp as [c H1 H2 H3 Q H5|h0 H1 Q H3|H1 H2 H3 H4].
      - apply (Requested _ c); try congruence; [|eauto].
        unfold quiet in *. now rewrite Ed, Es.
      - apply (Waiting _ h0); try congruence; [|intros ? ? ?; eauto].
        unfold quiet in *. now rewrite Ed, Es.
      - apply Signalled; try congruence; eauto. }
    destruct (callback tm) eqn:Hc; simpl.
    + now apply font_phase_nextItem.
    + (* the timer that signals *)
      destruct Hp as [c H1 H2 H3 Q H5|h0 H1 (Q1 & Q2 & Q3 & Q4) H3|H1 H2 H3 H4].
      * rewrite (H5 h tm Hl) in Hc. discriminate Hc.
      * destruct (H3 h tm Hl) as [E|(-> & _ & R)]; [congruence|].
        apply font_phase_fontsReady; try congruence.
        intros h' tm' Hl'. unfold w1 in Hl'. rewrite R in Hl'. simpl in Hl'.
        apply lookup_delete_Some in Hl' as [Hne Hl'].
        destruct (H3 h' tm' Hl') as [E|(E & _)]; [now rewrite E | congruence].
      * specialize (H4 h tm Hl). rewrite Hc in H4. discriminate H4.
    + destruct Hp as [c H1 H2 H3 Q H5|h0 H1 Q H3|H1 H2 H3 H4].
      * rewrite (H5 h tm Hl) in Hc. discriminate Hc.
      * destruct (H3 h tm Hl) as [E|(_ & E & _)]; congruence.
      * specialize (H4 h tm Hl). rewrite Hc in H4. discriminate H4.
    + (* page work runs only after the signal *)
      destruct Hp as [c H1 H2 H3 Q H5|h0 H1 Q H3|H1 H2 H3 H4].
      * rewrite (H5 h tm Hl) in Hc. discriminate Hc.
      * destruct (H3 h tm Hl) as [E|(_ & E & _)]; congruence.
      * apply Signalled; simpl; try congruence. eauto.
    + destruct Hp as [c H1 H2 H3 Q H5|h0 H1 Q H3|H1 H2 H3 H4].
      * rewrite (H5 h tm Hl) in Hc. discriminate Hc.
      * destruct (H3 h tm Hl) as [E|(_ & E & _)]; congruence.
      * apply Signalled; simpl; try congruence. eauto.
    + destruct Hp as [c H1 H2 H3 Q H5|h0 H1 Q H3|H1 H2 H3 H4].
      * rewrite (H5 h tm Hl) in Hc. discriminate Hc.
      * destruct (H3 h tm Hl) as [E|(_ & E & _)]; congruence.
      * apply Signalled; simpl; try congruence. eauto.
  - now apply font_phase_setItem.
  - unfold report. destruct (webfont w) as [c|] eqn:Hw; [|assumption].
    destruct Hp as [c' H1 H2 H3 Q H5|h0 H1 Q H3|H1 H2 H3 H4]; try congruence.
    assert (c' = c) as -> by congruence. rewrite H2. simpl.
    apply (Waiting _ (nextHandle (window w))); [reflexivity|exact Q|].
    intros h tm Hl. simpl in Hl.
    apply lookup_insert_Some in Hl as [[<- <-]|[_ Hl]]; [now right | left; eauto].
  - unfold report. destruct (webfont w) as [c|] eqn:Hw; [|assumption].
    destruct Hp as [c' H1 H2 H3 Q H5|h0 H1 Q H3|H1 H2 H3 H4]; try congruence.
    assert (c' = c) as -> by congruence. rewrite H3.
    apply (Waiting _ 0); [reflexivity|exact Q|].
    intros h tm Hl. left. eauto.
Qed.

Lemma font_phase_run events : forall w, font_phase w -> font_phase (run events w).
Proof.
  induction events as [|e events IH]; intros w H; simpl; [assumption|].
  now apply IH, font_phase_step.
Qed.

Lemma font_phase_LayoutController isIE prods :
  font_phase (LayoutController isIE prods page).
Proof.
  destruct isIE.
  - apply (Waiting _ 1); [reflexivity|repeat split|].
    intros h tm Hl. simpl in Hl.
    apply lookup_insert_Some in Hl as [[<- <-]|[_ Hl]]; [now right|].
    now rewrite lookup_empty in Hl.
  - eapply Requested; try reflexivity; [repeat split|].
    intros h tm Hl. simpl in Hl. now rewrite lookup_empty in Hl.
Qed.

End FontPhase.

(** X5: along every run from the controller's start, [fontsLoaded] is
    broadcast at most once, and the ad container is visible exactly when it
    has been: before the broadcast it is hidden, after it visible. *)
Theorem fontsLoaded_at_most_once (isIE : bool) (prods : list Data.Product)
    (events : list Event) :
  let w := run events (LayoutController isIE prods page) in
  (broadcasts (scope w) = [] /\ visibility (document w) = Some "hidden"%string)
  \/ (broadcasts (scope w) = [FONTS_LOADED]
      /\ visibility (document w) = Some "visible"%string).
Proof.
  intros w.
  destruct (font_phase_run events _ (font_phase_LayoutController isIE prods))
    as [c _ _ _ (Q1 & Q2 & _) _|h _ (Q1 & Q2 & _) _|_ H2 H3 _]; auto.
Qed.

(** X6: nothing of the layout runs ahead of the fonts: as long as
    [fontsLoaded] has not been broadcast, the layout keeps its [hide] class,
    neither [uniformSize] nor [buildAnimation] has run, and no live timer
    would run them; the only timers are ticks of the carousel and the one
    that broadcasts. *)
Theorem nothing_before_fontsLoaded (isIE : bool) (prods : list Data.Product)
    (events : list Event) :
  let w := run events (LayoutController isIE prods page) in
  broadcasts (scope w) = [FONTS_LOADED]
  \/ (layoutHidden (document w) = true /\ performed (document w) = []
      /\ map_Forall (fun _ tm => callback tm = NextItem \/ callback tm = FontsReady)
                    (timers (window w))).
Proof.
  intros w.
  destruct (font_phase_run events _ (font_phase_LayoutController isIE prods))
    as [c _ _ _ (_ & _ & Q3 & Q4) H5|h _ (_ & _ & Q3 & Q4) H3|_ H2 _ _]; auto;
    right; repeat split; auto; intros k tm Hl.
  - left. eauto.
  - destruct (H3 k tm Hl) as [|(_ & E & _)]; auto.
Qed.

(** ** Further properties of [uniformSize] *)

Section Visible.

Lemma fold_visit_visible (l : list Span) : forall v,
  List.fold_left visit l v = List.fold_left visit (List.filter offsetParent l) v.
Proof.
  induction l as [|s l IH]; intros v; simpl; [reflexivity|].
  destruct (offsetParent s) eqn:E; simpl; [apply IH|].
  rewrite <- IH. f_equal. unfold visit. now rewrite E.
Qed.

Lemma smallestFontSize_visible group :
  smallestFontSize group
  = List.fold_left visit (visible_spans group) (JS.int 1000).
Proof. unfold smallestFontSize, visible_spans. apply fold_visit_visible. Qed.

Lemma visit_choice v s :
  offsetParent s = true -> visit v s = v \/ visit v s = element_size s.
Proof.
  intros E. unfold visit, element_size. rewrite E.
  destruct (JS.lt (if JS.lt _ _ then _ else _) v); auto.
Qed.

Lemma visit_not_a_number v s :
  JS.parseInt (fontSizeStyle s) = JS.NaN -> visit v s = v.
Proof.
  intros E. unfold visit. destruct (offsetParent s); [|reflexivity]. rewrite E.
  assert (JS.lt (JS.Num JS.NaN) (getAttribute s) = false) as ->
    by (unfold getAttribute; destruct (minfontsize s); reflexivity).
  now destruct v.
Qed.

Lemma element_size_clamped s x :
  JS.parseInt (fontSizeStyle s) = JS.Fin x -> 0 <= x ->
  (forall a, minfontsize s = Some a -> plain_numeral a = true) ->
  exists c, clamped s = Some c /\ JS.ToNumber (element_size s) = JS.Fin c.
Proof.
  intros Hx H0 Hp. unfold element_size, clamped, floor_of, getAttribute. rewrite Hx.
  destruct (minfontsize s) as [a|].
  - destruct (plain_numeral_number a (Hp a eq_refl)) as [f Hf].
    change (JS.lt (JS.Num (JS.Fin x)) (JS.Str a))
      with (JS.num_ltb (JS.Fin x) (JS.StringToNumber a)).
    simpl JS.ToNumber at 1. rewrite Hf. simpl JS.num_ltb.
    destruct (x <? f) eqn:E.
    + apply Z.ltb_lt in E. exists f. simpl. rewrite Hf. split; [f_equal; lia | reflexivity].
    + apply Z.ltb_ge in E. exists x. simpl. split; [f_equal; lia | reflexivity].
  - simpl. exists x. assert ((x <? 0) = false) as -> by (apply Z.ltb_ge; lia).
    split; [f_equal; lia | reflexivity].
Qed.

Lemma fold_min_le (l : list Z) : forall m,
  List.fold_left Z.min l m <= m
  /\ forall k, In k l -> List.fold_left Z.min l m <= k.
Proof.
  induction l as [|x l IH]; intros m; simpl; [split; [lia | tauto]|].
  destruct (IH (Z.min m x)) as [H1 H2]. split; [lia|].
  intros k [<-|Hk]; [lia | auto].
Qed.

Lemma fold_visit_candidate (l : list Span) : forall v k,
  (forall s x, In s l -> JS.parseInt (fontSizeStyle s) = JS.Fin x -> 0 <= x) ->
  (forall s a, In s l -> minfontsize s = Some a -> plain_numeral a = true) ->
  Forall (fun s => offsetParent s = true) l ->
  JS.ToNumber v = JS.Fin k ->
  exists k', JS.ToNumber (List.fold_left visit l v) = JS.Fin k'
             /\ (k' = k \/ In k' (omap clamped l)).
Proof.
  induction l as [|s l IH]; intros v k Hr Hf Hv Hk; simpl.
  - exists k. auto.
  - apply Forall_cons_1 in Hv as [Hs Hv].
    assert (Hstep : exists k1, JS.ToNumber (visit v s) = JS.Fin k1
                     /\ (k1 = k \/ clamped s = Some k1)).
    { destruct (JS.parseInt (fontSizeStyle s)) as [|x] eqn:Hx.
      - rewrite (visit_not_a_number v s Hx). exists k. auto.
      - destruct (element_size_clamped s x Hx) as (c & Hc & Hn).
        + apply (Hr s x); simpl; auto.
        + intros a Ha. apply (Hf s a); simpl; auto.
        + destruct (visit_choice v s Hs) as [-> | ->]; [exists k | exists c]; auto. }
    destruct Hstep as (k1 & Hk1 & Hor).
    destruct (IH (visit v s) k1) as (k' & Hk' & Hor'); auto.
    + intros; eapply Hr; simpl; eauto.
    + intros; eapply Hf; simpl; eauto.
    + exists k'. split; [exact Hk'|].
      destruct (clamped s) as [c|] eqn:Hc; simpl.
      * destruct Hor' as [->|Hin]; [|auto].
        destruct Hor as [->|E]; [auto | right; left; congruence].
      * destruct Hor' as [->|Hin]; [|auto].
        destruct Hor as [->|E]; [auto | discriminate E].
Qed.

End Visible.

(** X7: spans that are not rendered play no part in [uniformSize]: two
    groups with the same visible spans get the same size. *)
Theorem uniformSize_ignores_hidden (g1 g2 : list Element) :
  visible_spans g1 = visible_spans g2 ->
  smallestFontSize g1 = smallestFontSize g2 /\
  List.map el_css (uniformSize g1)
  = List.map (fun _ => Some (JS.concat (smallestFontSize g2) "px")) g1.
Proof.
  intros H. assert (E : smallestFontSize g1 = smallestFontSize g2)
    by now rewrite !smallestFontSize_visible, H.
  split; [exact E|]. unfold uniformSize. rewrite E, List.map_map. reflexivity.
Qed.

Lemma uniformSize_ignores_hidden_witness :
  visible_spans sample_group
  = visible_spans [element [span true (Some "10") "8px"; span true None "14px";
                            span true (Some "12") "16px"]] /\
  List.map el_css (uniformSize sample_group)
  = [Some "10px"; Some "10px"; Some "10px"]%string.
Proof.
  split; [reflexivity|].
  exact (proj2 (uniformSize_ignores_hidden sample_group
                  [element [span true (Some "10") "8px"; span true None "14px";
                            span true (Some "12") "16px"]] eq_refl)).
Defined.

(** X8: when no span of the group is rendered (or the selector finds no
    span at all), [uniformSize] still writes a size: every element of the
    group, and the first span of each, gets [1000px]. *)
Theorem uniformSize_none_visible (group : list Element) :
  visible_spans group = [] ->
  Forall (fun el => el_css el = Some "1000px"%string /\
                    forall s, head (spans el) = Some s ->
                              span_css s = Some "1000px"%string)
         (uniformSize group).
Proof.
  intros H.
  assert (E : smallestFontSize group = JS.int 1000)
    by now rewrite smallestFontSize_visible, H.
  pose proof (uniformSize_css group) as Hcss. rewrite E in Hcss. exact Hcss.
Qed.

Lemma uniformSize_none_visible_witness :
  visible_spans hidden_group = [] /\
  Forall (fun el => el_css el = Some "1000px"%string /\
                    forall s, head (spans el) = Some s ->
                              span_css s = Some "1000px"%string)
         (uniformSize hidden_group).
Proof.
  split; [reflexivity|]. exact (uniformSize_none_visible hidden_group eq_refl).
Defined.

(** X9: whatever the order in which floors compare, [uniformSize] never
    invents a size and never goes below the capped minimum: with rendered
    sizes that are not negative and floors that are plain numerals, the size
    it assigns is 1000 or the clamped size of one of the visible spans. *)
Theorem uniformSize_assigns_a_candidate (group : list Element) :
  readable group ->
  exists k, JS.ToNumber (smallestFontSize group) = JS.Fin k /\
            (k = 1000 \/ In k (clamped_sizes group)) /\
            List.fold_left Z.min (clamped_sizes group) 1000 <= k.
Proof.
  intros [Hr Hf]. rewrite smallestFontSize_visible.
  destruct (fold_visit_candidate (visible_spans group) (JS.int 1000) 1000 Hr Hf)
    as (k & Hk & Hor).
  - apply List.Forall_forall. intros s Hs.
    now apply visible_spans_In in Hs as [_ Hs].
  - reflexivity.
  - exists k. split; [exact Hk|]. split; [exact Hor|].
    destruct (fold_min_le (clamped_sizes group) 1000) as [H1 H2].
    destruct Hor as [->|Hin]; [exact H1 | exact (H2 k Hin)].
Qed.

Lemma mixed_width_group_readable : readable mixed_width_group.
Proof.
  split.
  - intros s x Hs. vm_compute in Hs.
    destruct Hs as [<-|[<-|[]]]; vm_compute; intros [= <-]; discriminate.
  - intros s a Hs. vm_compute in Hs.
    destruct Hs as [<-|[<-|[]]]; simpl; intros [= <-]; reflexivity.
Qed.

Lemma uniformSize_assigns_a_candidate_witness :
  readable mixed_width_group /\
  exists k, JS.ToNumber (smallestFontSize mixed_width_group) = JS.Fin k /\
            (k = 1000 \/ In k (clamped_sizes mixed_width_group)) /\
            List.fold_left Z.min (clamped_sizes mixed_width_group) 1000 <= k.
Proof.
  split; [exact mixed_width_group_readable|].
  exact (uniformSize_assigns_a_candidate mixed_width_group mixed_width_group_readable).
Defined.

(** The candidate need not be the least, nor below 1000: the floors "3" and
    "2000" compare as strings, and "2000" comes first. *)
Example uniformSize_above_the_cap :
  List.map el_css (uniformSize mixed_width_group)
  = [Some "2000px"; Some "2000px"]%string.
Proof. reflexivity. Qed.

(** ** Further properties of the controller, the builder and the bootstrap *)

Lemma sale_price_twice (p : Data.Product) : sale_price (sale_price p) = sale_price p.
Proof.
  destruct p as [n u i st rt pr sp]. unfold sale_price, Data.set_price, JS.or. simpl.
  destruct (JS.ToBoolean sp) eqn:E; simpl; rewrite ?E; reflexivity.
Qed.

(** X10: replacing prices by sale prices is idempotent: a controller that
    is handed the products an earlier controller has already worked on
    leaves every price as it finds it. *)
Theorem LayoutController_prices_settled (isIE isIE' : bool)
    (prods : list Data.Product) (w w' : World) :
  products (scope (LayoutController isIE'
                     (products (scope (LayoutController isIE prods w))) w'))
  = products (scope (LayoutController isIE prods w)).
Proof.
  assert (E : forall b l x, products (scope (LayoutController b l x))
                            = List.map sale_price l)
    by (intros b l x; unfold LayoutController, loadFonts; now destruct b).
  rewrite !E, List.map_map. apply List.map_ext. intros p. apply sale_price_twice.
Qed.

(** X11: the product images are made transparent for every layout type,
    but only the four known layout types fade them in again: for a
    [layoutType] that is none of the four the build is the tween of the
    stars alone, and the images stay transparent. *)
Theorem buildAnimation_unknown_layout (layoutType : option Animation.LayoutType) :
  Animation.transparent (Animation.buildAnimation layoutType)
  = Animation.targets Animation.images_fade_in /\
  (In Animation.images_fade_in
      (Animation.tweens (Animation.buildAnimation layoutType))
   <-> layoutType <> None) /\
  (layoutType = None ->
   Animation.tweens (Animation.buildAnimation layoutType)
   = [Animation.stars_fade_in]).
Proof.
  split; [reflexivity|]. split.
  - split.
    + intros Hin ->. simpl in Hin. destruct Hin as [E|[]]. discriminate E.
    + intros Hne. destruct layoutType as [[]|]; [| | | |now elim Hne]; simpl; tauto.
  - now intros ->.
Qed.

(** X12: a payload without a Design makes [window.onAdData] throw, after
    the image of every Product has been registered: the preloader gets no
    completion listener and is not started, and [utils.onAdData] is not
    called. *)
Theorem onAdData_no_design_throws (data : DynamicData) (util : string) (page : Page) :
  Designs (adData data) = [] ->
  onAdData data util page
  = ({| preloader :=
          {| images := images (preloader page)
                       ++ List.map Data.imageUrl (Products (adData data));
             listeners := listeners (preloader page);
             started := started (preloader page) |};
        handled := handled page |}, TypeError)
  /\ handled (complete (fst (onAdData data util page)))
     = handled (complete page).
Proof.
  intros H.
  assert (E : onAdData data util page
    = ({| preloader :=
            {| images := images (preloader page)
                         ++ List.map Data.imageUrl (Products (adData data));
               listeners := listeners (preloader page);
               started := started (preloader page) |};
          handled := handled page |}, TypeError))
    by (unfold onAdData, initPreloading; now rewrite H, fold_addImage).
  split; [exact E|]. now rewrite E, !complete_handled.
Qed.

Lemma onAdData_no_design_throws_witness :
  snd (onAdData {| adData := {| Headlines := [headline]; Designs := [];
                                Products := [shop_item (JS.Str "20") JS.Undefined] |} |}
                "util" fresh_page) = TypeError.
Proof.
  now rewrite (proj1 (onAdData_no_design_throws
                        {| adData := {| Headlines := [headline]; Designs := [];
                                        Products := [shop_item (JS.Str "20") JS.Undefined] |} |}
                        "util" fresh_page eq_refl)).
Defined.

(** ** Further properties of the layout specification *)

Lemma layout_spec_required_only :
  map_Forall (fun key required =>
                required = true ->
                In key [("Headline", "productClickOnly"); ("Product", "name");
                        ("Product", "url"); ("Design", "imageUrl")]%string)
             (attributes layout_spec).
Proof.
  apply map_Forall_to_list.
  remember (map_to_list (attributes layout_spec)) as declared eqn:E.
  vm_compute in E. subst declared.
  repeat (apply Forall_cons_2;
          [first [discriminate | intros _; simpl; auto 10]|]).
  apply Forall_nil_2.
Qed.

Lemma layout_spec_entities_counted :
  map_Forall (fun key _ => is_Some (occurrences layout_spec !! fst key))
             (attributes layout_spec).
Proof.
  apply map_Forall_to_list.
  remember (map_to_list (attributes layout_spec)) as declared eqn:E.
  vm_compute in E. subst declared.
  repeat (apply Forall_cons_2; [eexists; vm_compute; reflexivity|]).
  apply Forall_nil_2.
Qed.

(** X13: the layout declares 24 attributes, of which exactly four are
    required (Headline.productClickOnly, Product.name, Product.url and
    Design.imageUrl), each for an entity whose occurrences are declared.
    Four fields the script itself reads are not declared at all:
    Product.imageUrl, Product.salePrice, Design.bgImageUrl and
    Design.btnStyle. *)
Theorem layout_spec_attributes (entity attribute : string) :
  size (attributes layout_spec) = 24%nat /\
  (attributes layout_spec !! (entity, attribute) = Some true <->
   In (entity, attribute)
      [("Headline", "productClickOnly"); ("Product", "name");
       ("Product", "url"); ("Design", "imageUrl")]%string) /\
  (is_Some (attributes layout_spec !! (entity, attribute)) ->
   is_Some (occurrences layout_spec !! entity)) /\
  List.map (fun key => attributes layout_spec !! key)
    [("Product", "imageUrl"); ("Product", "salePrice");
     ("Design", "bgImageUrl"); ("Design", "btnStyle")]%string
  = [None; None; None; None] /\
  List.map (fun key => attributes layout_spec !! key)
    [("Product", "price"); ("Design", "cornerStyle");
     ("Design", "logoImageUrl"); ("Design", "logoPadding")]%string
  = [Some false; Some false; Some false; Some false].
Proof.
  split; [vm_compute; reflexivity|]. split; [split|].
  - intros H. exact (layout_spec_required_only _ _ H eq_refl).
  - intros [E|[E|[E|[E|[]]]]]; injection E as <- <-; reflexivity.
  - split; [|split; reflexivity].
    intros [v Hv]. exact (layout_spec_entities_counted _ _ Hv).
Qed.

(** ** Properties of the logo fit directive *)

Section Logo.

Variable checkUrl : JS.value -> bool.
Variable k : LogoFit.Constants.
Variable attrs : LogoFit.Attrs.

Lemma logo_phase_first first :
  LogoFit.done (LogoFit.computeSize checkUrl first LogoFit.linked) = true /\
  logo_phase checkUrl attrs first (LogoFit.computeSize checkUrl first LogoFit.linked).
Proof.
  unfold LogoFit.computeSize. simpl. split; [reflexivity|].
  destruct (checkUrl first) eqn:E; [apply Deferred | apply GivenUp]; auto.
Qed.

Lemma logo_phase_happen first logo h :
  LogoFit.done logo = true -> logo_phase checkUrl attrs first logo ->
  LogoFit.done (LogoFit.happen checkUrl k attrs logo h) = true /\
  logo_phase checkUrl attrs first (LogoFit.happen checkUrl k attrs logo h).
Proof.
  intros Hd Hp. destruct h as [src|reading]; simpl.
  - unfold LogoFit.computeSize. rewrite Hd. simpl. auto.
  - unfold LogoFit.run_deferred.
    destruct Hp as [H1 H2 H3 H4 H5|H1 H2 H3 H4|H1 H2 H3 H4 H5]; rewrite H2.
    + simpl. split; [exact Hd|]. apply Fitted; simpl; auto. now rewrite H3.
    + split; [exact Hd|]. now apply Fitted.
    + split; [exact Hd|]. now apply GivenUp.
Qed.

Lemma logo_phase_happenings first hs : forall logo,
  LogoFit.done logo = true -> logo_phase checkUrl attrs first logo ->
  logo_phase checkUrl attrs first (LogoFit.happenings checkUrl k attrs hs logo).
Proof.
  induction hs as [|h hs IH]; intros logo Hd Hp; simpl; [exact Hp|].
  destruct (logo_phase_happen first logo h Hd Hp) as [Hd' Hp'].
  now apply IH.
Qed.

Lemma Math_max_NaN a : LogoFit.Math_max a JS.NaN = JS.NaN.
Proof. now destruct a. Qed.

Lemma Math_min_NaN a : LogoFit.Math_min a JS.NaN = JS.NaN.
Proof. now destruct a. Qed.

End Logo.

(** X14: the logo is fitted at most once, and only for the address the
    watched expression had when its listener was first called.  If that
    first address does not pass [checkUrl], nothing is deferred and the logo
    is never placed, whatever addresses the expression takes later. *)
Theorem logo_fitted_once (checkUrl : JS.value -> bool) (k : LogoFit.Constants)
    (attrs : LogoFit.Attrs) (first : JS.value) (later : list LogoFit.Happening) :
  let logo := LogoFit.happenings checkUrl k attrs
                (LogoFit.Watched first :: later) LogoFit.linked in
  (LogoFit.fits logo = []
   \/ LogoFit.fits logo
      = [(first, LogoFit.scaletype attrs, LogoFit.aligntype attrs)]) /\
  (LogoFit.isLogoPlaced logo = true -> checkUrl first = true) /\
  (checkUrl first = false ->
   LogoFit.deferred logo = [] /\ LogoFit.fits logo = []
   /\ LogoFit.isLogoPlaced logo = false /\ LogoFit.parent_css logo = None).
Proof.
  intros logo.
  destruct (logo_phase_first checkUrl attrs first) as [Hd Hp].
  pose proof (logo_phase_happenings checkUrl k attrs first later _ Hd Hp) as H.
  change (logo_phase checkUrl attrs first logo) in H.
  destruct H as [H1 H2 H3 H4 H5|H1 H2 H3 H4|H1 H2 H3 H4 H5].
  - split; [auto|]. split; [auto|]. congruence.
  - split; [auto|]. split; [auto|]. congruence.
  - split; [auto|]. split; [congruence | auto].
Qed.

Example logo_address_arrives_late :
  LogoFit.isLogoPlaced
    (LogoFit.happenings begins_with_h logo_constants plain_attrs
       [LogoFit.Watched JS.Undefined;
        LogoFit.Watched (JS.Str "https://shop.example/logo.png");
        LogoFit.Timer (logo_reading (JS.Str "8"))]
       LogoFit.linked) = false.
Proof. reflexivity. Qed.



(** X16: a logo padding that does not begin with a number spoils all four
    sides: each padding is [NaN], the parent is given the style ["NaNpx"]
    four times, and the logo still counts as placed. *)
Theorem logo_padding_unreadable (k : LogoFit.Constants) (attrs : LogoFit.Attrs)
    (reading : LogoFit.Reading) (src : JS.value) (logo : LogoFit.Logo) :
  LogoFit.parseInt10
    (JS.ToString (JS.or (LogoFit.logoPadding reading) (JS.int 0))) = JS.NaN ->
  LogoFit.parent_css (LogoFit.place k attrs reading src logo)
  = Some {| LogoFit.css_paddingTop := "NaNpx"; LogoFit.css_paddingRight := "NaNpx";
            LogoFit.css_paddingBottom := "NaNpx"; LogoFit.css_paddingLeft := "NaNpx" |}
  /\ LogoFit.isLogoPlaced (LogoFit.place k attrs reading src logo) = true.
Proof.
  intros H.
  assert (Hc : LogoFit.padding_of k attrs reading = JS.NaN).
  { unfold LogoFit.padding_of. rewrite H, Math_max_NaN.
    now destruct (JS.ToNumber _). }
  split; [|reflexivity].
  unfold LogoFit.place, LogoFit.paddings. cbn [LogoFit.parent_css]. rewrite Hc.
  unfold LogoFit.plus, LogoFit.available, LogoFit.Math_min, LogoFit.style_of.
  reflexivity.
Qed.

Lemma logo_padding_unreadable_witness :
  LogoFit.parseInt10
    (JS.ToString (JS.or (LogoFit.logoPadding (logo_reading (JS.Str "large")))
                        (JS.int 0))) = JS.NaN /\
  LogoFit.parent_css
    (LogoFit.place logo_constants plain_attrs (logo_reading (JS.Str "large"))
       (JS.Str "https://shop.example/logo.png") LogoFit.linked)
  = Some {| LogoFit.css_paddingTop := "NaNpx"; LogoFit.css_paddingRight := "NaNpx";
            LogoFit.css_paddingBottom := "NaNpx"; LogoFit.css_paddingLeft := "NaNpx" |}.
Proof.
  split; [reflexivity|].
  exact (proj1 (logo_padding_unreadable logo_constants plain_attrs
                  (logo_reading (JS.Str "large"))
                  (JS.Str "https://shop.example/logo.png") LogoFit.linked eq_refl)).
Defined.

(** ** The boundary of the cap *)

(** X17: the cap is measured from the latest [startCarousel], and it is
    exceeded only strictly: a tick is under the cap exactly when at most
    30000 ms have passed since the start, so a tick at exactly 30000 ms
    still advances and one a millisecond later stops the rotation. *)
Theorem cap_boundary (w : World) (start now : Z) :
  (under_cap now (startCarousel start w) <-> now - start <= 30000) /\
  (now - start <= 30000 ->
   window (nextItem now (startCarousel start w)) = window (startCarousel start w)) /\
  (30000 < now - start ->
   currentItemIndex (scope (nextItem now (startCarousel start w))) = 0 /\
   timers (window (nextItem now (startCarousel start w)))
   = delete (nextHandle (window w)) (timers (window (startCarousel start w)))).
Proof.
  assert (Hs : autoCycleStartTime (startCarousel start w) = JS.int start)
    by (unfold startCarousel; now rewrite start_time_startInterval).
  assert (Hu : under_cap now (startCarousel start w) <-> now - start <= 30000).
  { unfold under_cap. rewrite Hs, gt_cap. unfold AUTO_ROTATE_MAX_DURATION.
    split; intros H; [apply Z.ltb_ge in H | apply Z.ltb_ge]; lia. }
  split; [exact Hu|]. split.
  - intros H. apply Hu in H. unfold under_cap in H. unfold nextItem.
    rewrite H. now destruct (_ <? _).
  - intros H. rewrite (nextItem_beyond_cap _ now start Hs H).
    split; [reflexivity|].
    unfold startCarousel, startInterval.
    now destruct (JS.ToBoolean _).
Qed.
